(** * MedgemmaAgent: the chat-to-Gradio message bridge

    A shallow embedding of
    [nodejs-ai-assistant/src/agents/triage/MedgemmaAgent.ts].

    - [Js]: the untyped JavaScript values the agent receives from the remote
      endpoint ([result: any]), with the primitives the agent applies to
      them (truthiness, [String(..)], [Array.isArray], property access).
    - [Bridge]: the agent.  Every call on a collaborator (the chat backend,
      the Gradio client module, the connected client) is answered by an
      oracle of the [World]; the calls the agent makes are recorded in two
      logs, whether they are answered or rejected.
    - [Run], [Described], [Scenario]: vocabulary for the statements, the
      behaviour as the specification words it, and concrete worlds.

    Scope of the model: one run of a method at a time (handlers of two
    messages do not interleave); an awaited collaborator call returns or
    throws, only the predict promise may stay pending, and time is the
    millisecond at which that promise settles; numbers are the
    integer-valued ones. *)

From Stdlib Require Import List String Ascii Bool ZArith NArith Lia DecimalString.
Import ListNotations.
Open Scope string_scope.

Set Implicit Arguments.
Set Warnings "-register-all".

(* ------------------------------------------------------------------ *)
(** ** JavaScript values *)

Module Js.

(** A value as the agent sees it.  Numbers are restricted to the
    integer-valued ones (no fraction, no NaN); objects keep their
    own properties in insertion order and a property read takes the first
    entry with that key. *)
Inductive value : Type :=
| VUndef
| VNull
| VBool (b : bool)
| VNum (z : Z)
| VStr (s : string)
| VArr (items : list value)
| VObj (props : list (string * value)).

(** Induction principle that reaches the values nested under arrays and
    objects. *)
Section value_induction.
Variable P : value -> Prop.
Hypothesis Hundef : P VUndef.
Hypothesis Hnull : P VNull.
Hypothesis Hbool : forall b, P (VBool b).
Hypothesis Hnum : forall z, P (VNum z).
Hypothesis Hstr : forall s, P (VStr s).
Hypothesis Harr : forall items, Forall P items -> P (VArr items).
Hypothesis Hobj : forall props, Forall (fun kv => P (snd kv)) props -> P (VObj props).

Fixpoint value_nested_ind (v : value) : P v :=
  match v with
  | VUndef => Hundef
  | VNull => Hnull
  | VBool b => Hbool b
  | VNum z => Hnum z
  | VStr s => Hstr s
  | VArr items =>
      Harr ((fix go (l : list value) : Forall P l :=
               match l with
               | [] => Forall_nil P
               | x :: r => Forall_cons x (value_nested_ind x) (go r)
               end) items)
  | VObj props =>
      Hobj ((fix go (l : list (string * value)) : Forall (fun kv => P (snd kv)) l :=
               match l with
               | [] => Forall_nil _
               | kv :: r => Forall_cons kv (value_nested_ind (snd kv)) (go r)
               end) props)
  end.
End value_induction.

(** [!!v] *)
Definition truthy (v : value) : bool :=
  match v with
  | VUndef | VNull => false
  | VBool b => b
  | VNum z => negb (z =? 0)%Z
  | VStr s => negb (s =? "")
  | VArr _ | VObj _ => true
  end.

(** [typeof v === 'string'] *)
Definition isString (v : value) : bool :=
  match v with VStr _ => true | _ => false end.

(** [Array.isArray(v)] *)
Definition isArray (v : value) : bool :=
  match v with VArr _ => true | _ => false end.

(** [a || b] *)
Definition logicalOr (a b : value) : value := if truthy a then a else b.

(** [a ?? b] *)
Definition nullish (a b : value) : value :=
  match a with VUndef | VNull => b | _ => a end.

(** The line-feed character, as a string. *)
Definition newline : string := String (ascii_of_nat 10) EmptyString.

(** [Array.prototype.join] on strings. *)
Definition join (sep : string) (parts : list string) : string :=
  String.concat sep parts.

(** [s.length > 0], which is what [filter(Boolean)] keeps of a list of strings. *)
Definition nonEmpty (s : string) : bool := negb (s =? "").

(** [parts.filter(Boolean).join(sep)] *)
Definition joinKept (sep : string) (parts : list string) : string :=
  join sep (filter nonEmpty parts).

(** Joining two already-joined texts: an empty side disappears. *)
Definition glue (sep x y : string) : string :=
  if x =? "" then y else if y =? "" then x else x ++ sep ++ y.

Definition numberToString (z : Z) : string :=
  NilZero.string_of_int (Z.to_int z).

(** [String(v)].  An array prints as its elements joined by commas, with
    [null] and [undefined] elements printed as nothing. *)
Fixpoint toStr (v : value) : string :=
  match v with
  | VUndef => "undefined"
  | VNull => "null"
  | VBool true => "true"
  | VBool false => "false"
  | VNum z => numberToString z
  | VStr s => s
  | VArr items =>
      join "," (map (fun x => match x with
                              | VUndef | VNull => ""
                              | _ => toStr x
                              end) items)
  | VObj _ => "[object Object]"
  end.

(** Own-property read by name on an object's entries. *)
Fixpoint lookup (k : string) (props : list (string * value)) : value :=
  match props with
  | [] => VUndef
  | (k', v) :: rest => if k' =? k then v else lookup k rest
  end.

(** [v.name] on a value that is neither [null] nor [undefined]; the agent
    only reads the names [data], [response], [text] and [output], which no
    primitive and no array carries. *)
Definition getProp (v : value) (name : string) : value :=
  match v with
  | VObj props => lookup name props
  | _ => VUndef
  end.

(** The one-character string at position [i] of [s], if any. *)
Definition charAt (s : string) (i : nat) : value :=
  match String.get i s with
  | Some c => VStr (String c EmptyString)
  | None => VUndef
  end.

(** [v[i]] on a value that is neither [null] nor [undefined]. *)
Definition getIndex (v : value) (i : nat) : value :=
  match v with
  | VArr items => nth i items VUndef
  | VStr s => charAt s i
  | VObj props => lookup (NilZero.string_of_uint (Nat.to_uint i)) props
  | _ => VUndef
  end.

(** [v?.name] *)
Definition optProp (v : value) (name : string) : value :=
  match v with
  | VUndef | VNull => VUndef
  | _ => getProp v name
  end.

(** [v?.[i]] *)
Definition optIndex (v : value) (i : nat) : value :=
  match v with
  | VUndef | VNull => VUndef
  | _ => getIndex v i
  end.

End Js.

(* ------------------------------------------------------------------ *)
(** ** The agent *)

Module Bridge.
Import Js.

(** *** Data *)

(** The fields of a chat attachment the agent reads. *)
Record Attachment : Type := {
  type : option string;
  image_url : option string;
  asset_url : option string;
  thumb_url : option string;
  og_scrape_url : option string
}.

(** The fields of an inbound message the agent reads; [ai_generated] is a
    custom field and is only tested for truthiness. *)
Record Message : Type := {
  text : option string;
  ai_generated : value;
  attachments : option (list Attachment)
}.

Record Event : Type := { message : option Message }.

(** What [handle_file] returns: opaque to the agent. *)
Inductive FileHandle : Type := FileData (url : string).

(** [const userMessage = { text, files }] *)
Record UserMessage : Type := {
  um_text : option string;
  files : list FileHandle
}.

(** The second argument of [predict]: an object literal with named fields,
    or an argument array [[userMessage, this.history]]. *)
Inductive Payload : Type :=
| PayloadObject (fields : list (string * UserMessage))
| PayloadArgs (userMessage : UserMessage) (history : list value).

Inductive GradioClient : Type := ClientHandle (n : nat).

(** [const { message: channelMessage } = await this.channel.sendMessage(..)] *)
Record ChannelMessage : Type := { cid : string; id : string }.

Inductive AIState : Type := AI_STATE_THINKING | AI_STATE_ERROR.

Inductive ChannelEvent : Type :=
| ai_indicator_update (ai_state : AIState) (ev_cid message_id : string)
| ai_indicator_clear (ev_cid message_id : string).

(** Calls on [chatClient] and [channel]. *)
Inductive ChatCall : Type :=
| sendMessage (msg_text : string) (msg_ai_generated : bool)
| sendEvent (ev : ChannelEvent)
| partialUpdateMessage (target : string) (set_text : string)
| on_message_new
| off_message_new
| disconnectUser.

(** Calls on the Gradio client module and on the connected client. *)
Inductive RemoteCall : Type :=
| connect (baseUrl : option string)
| predict (client : GradioClient) (apiName : string) (payload : Payload)
| close (client : GradioClient).

(** What a [catch] clause receives: an [Error] with its message, or anything
    else. *)
Inductive thrown : Type :=
| ErrorObject (error_message : string)
| NonError.

(** A call returns (an awaited promise resolves) or throws (rejects). *)
Inductive outcome (A : Type) : Type :=
| Returned (a : A)
| Threw (e : thrown).
Arguments Threw {A} e.

(** A promise that is raced against a timer: it settles some milliseconds
    after it was created, or never. *)
Inductive promise (A : Type) : Type :=
| SettlesAfter (ms : N) (r : outcome A)
| NeverSettles.
Arguments NeverSettles {A}.

Record ProcessEnv : Type := {
  GRADIO_BASE_URL : option string;
  GRADIO_API_NAME : option string;
  GRADIO_PREDICT_PATH : option string
}.

(** The collaborators.  An oracle that answers a call sees the calls made
    before it on the same side, so that the same call may be answered
    differently the second time. *)
Record World : Type := {
  env : ProcessEnv;
  Date_now : Z;
  channel_sendMessage : list ChatCall -> outcome ChannelMessage;
  channel_sendEvent : list ChatCall -> ChannelEvent -> outcome unit;
  chatClient_partialUpdateMessage : list ChatCall -> string -> string -> outcome unit;
  chatClient_on : list ChatCall -> outcome unit;
  chatClient_off : list ChatCall -> outcome unit;
  chatClient_disconnectUser : list ChatCall -> outcome unit;
  import_gradio_client : outcome unit;
  Client_connect : list RemoteCall -> option string -> outcome GradioClient;
  handle_file : string -> outcome FileHandle;
  client_predict : list RemoteCall -> GradioClient -> string -> Payload -> promise value;
  client_close : list RemoteCall -> GradioClient -> outcome unit;
  (** which callback runs first when the promise settles on the very
      millisecond the timer fires *)
  timer_wins_tie : bool
}.

(** The agent's private fields. *)
Record Agent : Type := {
  lastInteractionTs : Z;
  history : list value;
  gradioClient : option GradioClient
}.

(** The agent together with the calls made so far, oldest first.  The two
    logs are kept apart: a retry issued after the timer fired runs beside
    the failure path, and the order between the two sides is not recorded. *)
Record Sys : Type := {
  agent : Agent;
  chatLog : list ChatCall;
  remoteLog : list RemoteCall
}.

(** *** A state-and-exception monad for [async] bodies *)

Definition M (A : Type) : Type := Sys -> outcome A * Sys.

Definition ret {A} (a : A) : M A := fun s => (Returned a, s).

Definition throw {A} (e : thrown) : M A := fun s => (Threw e, s).

Definition bind {A B} (m : M A) (k : A -> M B) : M B :=
  fun s => match m s with
           | (Returned a, s') => k a s'
           | (Threw e, s') => (Threw e, s')
           end.

Definition try_catch {A} (body : M A) (handler : thrown -> M A) : M A :=
  fun s => match body s with
           | (Returned a, s') => (Returned a, s')
           | (Threw e, s') => handler e s'
           end.

Declare Scope async_scope.
Delimit Scope async_scope with async.
Notation "x <- m ;; k" := (bind m (fun x => k))
  (at level 61, m at next level, right associativity) : async_scope.
Notation "m ;; k" := (bind m (fun _ => k))
  (at level 61, right associativity) : async_scope.
Open Scope async_scope.

Definition liftOutcome {A} (r : outcome A) : M A := fun s => (r, s).

Definition getAgent : M Agent := fun s => (Returned (agent s), s).

Definition putAgent (a : Agent) : M unit :=
  fun s => (Returned tt, {| agent := a; chatLog := chatLog s; remoteLog := remoteLog s |}).

(** A call on the chat side: recorded, then answered by the oracle, which
    sees the calls before this one. *)
Definition chatCall {A} (c : ChatCall) (answer : list ChatCall -> outcome A) : M A :=
  fun s => (answer (chatLog s),
            {| agent := agent s; chatLog := chatLog s ++ [c]; remoteLog := remoteLog s |}).

Definition remoteCall {A} (c : RemoteCall) (answer : list RemoteCall -> outcome A) : M A :=
  fun s => (answer (remoteLog s),
            {| agent := agent s; chatLog := chatLog s; remoteLog := remoteLog s ++ [c] |}).

(** [xs.map(f)] for an [f] that may throw: stops at the first throw. *)
Fixpoint mapOutcome {A B} (f : A -> outcome B) (xs : list A) : outcome (list B) :=
  match xs with
  | [] => Returned []
  | x :: rest =>
      match f x with
      | Threw e => Threw e
      | Returned y =>
          match mapOutcome f rest with
          | Threw e => Threw e
          | Returned ys => Returned (y :: ys)
          end
      end
  end.

(** *** Pure helpers of [handleMessage] *)

(** [a || b] on values of type [string | undefined]. *)
Definition orElse (a b : option string) : option string :=
  match a with
  | Some s => if nonEmpty s then a else b
  | None => b
  end.

(** [(v as string) || d] *)
Definition orDefault (v : option string) (d : string) : string :=
  match orElse v (Some d) with Some s => s | None => d end.

(** A [string | undefined] inside a template literal. *)
Definition interpolate (v : option string) : string :=
  match v with Some s => s | None => "undefined" end.

(** [attachment.type === "image"] *)
Definition isImage (a : Attachment) : bool :=
  match type a with Some t => t =? "image" | None => false end.

(** [attachment.image_url || attachment.asset_url || attachment.thumb_url
    || attachment.og_scrape_url] *)
Definition attachmentUrl (a : Attachment) : option string :=
  orElse (orElse (orElse (image_url a) (asset_url a)) (thumb_url a)) (og_scrape_url a).

(** [.filter((url): url is string => typeof url === "string" && url.length > 0)] *)
Definition keepUrls (urls : list (option string)) : list string :=
  flat_map (fun u => match u with
                     | Some s => if nonEmpty s then [s] else []
                     | None => []
                     end) urls.

(** [const imageUrls = attachments.filter(..).map(..).filter(..)] *)
Definition imageUrls (atts : list Attachment) : list string :=
  keepUrls (map attachmentUrl (filter isImage atts)).

(** [const parseText = (data: unknown): string => ..] *)
Fixpoint parseText (data : value) : string :=
  if negb (truthy data) then ""
  else
    match data with
    | VStr s => s
    | VArr items => join newline (filter nonEmpty (map parseText items))
    | VObj props =>
        let direct :=
          find isString [lookup "response" props; lookup "text" props; lookup "output" props] in
        let fromData :=
          (* [if (Array.isArray(obj.data)) return obj.data.map(parseText)...]
             falling through to [String(data)] *)
          (fix dataText (kvs : list (string * value)) : string :=
             match kvs with
             | [] => toStr data
             | (k, v) :: rest =>
                 if k =? "data" then
                   match v with
                   | VArr items => join newline (filter nonEmpty (map parseText items))
                   | _ => toStr data
                   end
                 else dataText rest
             end) props in
        match direct with
        | Some (VStr s) => if nonEmpty s then s else fromData
        | _ => fromData
        end
    | _ => toStr data
    end.

(** V8's message for a property read on [null] or [undefined]. *)
Definition typeErrorMessage (v : value) (prop : string) : string :=
  "Cannot read properties of " ++ toStr v ++ " (reading '" ++ prop ++ "')".

(** [this.history[this.history.length - 1][1]] *)
Definition lastPairReply (h : list value) : outcome value :=
  match last h VUndef with
  | VUndef => Threw (ErrorObject (typeErrorMessage VUndef "1"))
  | VNull => Threw (ErrorObject (typeErrorMessage VNull "1"))
  | lastPair => Returned (getIndex lastPair 1)
  end.

(** [result?.data?.[1]] and [result?.data?.[2]] *)
Definition chatbotHistory (result : value) : value := optIndex (optProp result "data") 1.
Definition stateHistory (result : value) : value := optIndex (optProp result "data") 2.

(** [withTimeout(p, ms)]: the promise against a timer of [ms] milliseconds. *)
Definition withTimeout {A} (timerFirst : bool) (p : promise A) (ms : N) : outcome A :=
  match p with
  | SettlesAfter t r =>
      if (t <? ms)%N then r
      else if (t =? ms)%N && negb timerFirst then r
      else Threw (ErrorObject "MedGemma timed out")
  | NeverSettles => Threw (ErrorObject "MedGemma timed out")
  end.

(** *** The methods *)

Section Methods.
Variable w : World.

Definition apiName : string := orDefault (GRADIO_API_NAME (env w)) "/chat".

(** [const hint = `Gradio call failed (baseUrl=.., apiName=..)`] *)
Definition hint : string :=
  "Gradio call failed (baseUrl=" ++ interpolate (GRADIO_BASE_URL (env w))
  ++ ", apiName="
  ++ orDefault (orElse (GRADIO_API_NAME (env w)) (GRADIO_PREDICT_PATH (env w))) "/chat"
  ++ ")".

(** [if (!this.gradioClient) this.gradioClient = await mod.Client.connect(baseUrl)] *)
Definition ensureClient : M unit :=
  a <- getAgent ;;
  match gradioClient a with
  | Some _ => ret tt
  | None =>
      c <- remoteCall (connect (GRADIO_BASE_URL (env w)))
             (fun log => Client_connect w log (GRADIO_BASE_URL (env w))) ;;
      a' <- getAgent ;;
      putAgent {| lastInteractionTs := lastInteractionTs a';
                  history := history a';
                  gradioClient := Some c |}
  end.

(** One [this.gradioClient!.predict(apiName, payload)]: the call is
    recorded and the oracle tells when and how its promise settles.  On an
    unset client the member access throws at once and nothing is sent. *)
Definition predictOnce (payload : Payload) : Sys -> promise value * Sys :=
  fun s =>
    match gradioClient (agent s) with
    | None => (SettlesAfter 0 (Threw (ErrorObject (typeErrorMessage VUndef "predict"))), s)
    | Some c =>
        (client_predict w (remoteLog s) c apiName payload,
         {| agent := agent s; chatLog := chatLog s;
            remoteLog := remoteLog s ++ [predict c apiName payload] |})
    end.

(** [tryPredict()]: the promise of the first call, or, when that one
    rejects, of a second call made at that moment with the argument array. *)
Definition tryPredict (userMessage : UserMessage) : Sys -> promise value * Sys :=
  fun s =>
    match predictOnce (PayloadObject [("message_dict", userMessage)]) s with
    | (SettlesAfter t (Returned v), s1) => (SettlesAfter t (Returned v), s1)
    | (NeverSettles, s1) => (NeverSettles, s1)
    | (SettlesAfter t (Threw _), s1) =>
        match predictOnce (PayloadArgs userMessage (history (agent s1))) s1 with
        | (SettlesAfter t' r, s2) => (SettlesAfter (t + t') r, s2)
        | (NeverSettles, s2) => (NeverSettles, s2)
        end
    end.

(** [await withTimeout(tryPredict(), 45000)] *)
Definition awaitPredict (userMessage : UserMessage) : M value :=
  fun s =>
    let (p, s') := tryPredict userMessage s in
    (withTimeout (timer_wins_tie w) p 45000, s').

(** Lines 115-126: adopt a returned history or extract text. *)
Definition normalize (result : value) : M value :=
  if isArray (stateHistory result) || isArray (chatbotHistory result) then
    a <- getAgent ;;
    let newHistory :=
      match stateHistory result with
      | VArr h => h
      | _ => match chatbotHistory result with
             | VArr h => h
             | _ => history a
             end
      end in
    putAgent {| lastInteractionTs := lastInteractionTs a;
                history := newHistory;
                gradioClient := gradioClient a |} ;;
    match newHistory with
    | [] => ret (VStr "")
    | _ => liftOutcome (lastPairReply newHistory)
    end
  else
    ret (VStr (parseText (nullish (optProp result "data") result))).

(** Lines 60-82: load the client module, connect if no client is held,
    resolve the image attachments and build [userMessage]. *)
Definition prepare (m : Message) : M UserMessage :=
  liftOutcome (import_gradio_client w) ;;
  ensureClient ;;
  let atts := match attachments m with Some l => l | None => [] end in
  fileHandles <- liftOutcome (mapOutcome (handle_file w) (imageUrls atts)) ;;
  ret {| um_text := text m; files := fileHandles |}.

(** Lines 128-136: write the reply into the placeholder, clear the
    indicator. *)
Definition publish (channelMessage : ChannelMessage) (lastReply : value) : M unit :=
  chatCall (partialUpdateMessage (id channelMessage) (toStr (logicalOr lastReply (VStr ""))))
    (fun log => chatClient_partialUpdateMessage w log (id channelMessage)
                  (toStr (logicalOr lastReply (VStr "")))) ;;
  chatCall (sendEvent (ai_indicator_clear (cid channelMessage) (id channelMessage)))
    (fun log => channel_sendEvent w log
                  (ai_indicator_clear (cid channelMessage) (id channelMessage))).

(** The body of the [try] block. *)
Definition exchange (m : Message) (channelMessage : ChannelMessage) : M unit :=
  userMessage <- prepare m ;;
  result <- awaitPredict userMessage ;;
  lastReply <- normalize result ;;
  publish channelMessage lastReply.

(** The text written by the [catch] block. *)
Definition errorText (error : thrown) : string :=
  match error with
  | ErrorObject msg => msg ++ " - " ++ hint
  | NonError => "Error generating the message - " ++ hint
  end.

(** The body of the [catch] block. *)
Definition onError (channelMessage : ChannelMessage) (error : thrown) : M unit :=
  chatCall (sendEvent (ai_indicator_update AI_STATE_ERROR (cid channelMessage) (id channelMessage)))
    (fun log => channel_sendEvent w log
                  (ai_indicator_update AI_STATE_ERROR (cid channelMessage) (id channelMessage))) ;;
  chatCall (partialUpdateMessage (id channelMessage) (errorText error))
    (fun log => chatClient_partialUpdateMessage w log (id channelMessage) (errorText error)) ;;
  chatCall (sendEvent (ai_indicator_clear (cid channelMessage) (id channelMessage)))
    (fun log => channel_sendEvent w log
                  (ai_indicator_clear (cid channelMessage) (id channelMessage))).

(** Lines 46-57: stamp the interaction, create the placeholder, show the
    thinking indicator. *)
Definition prologue : M ChannelMessage :=
  a <- getAgent ;;
  putAgent {| lastInteractionTs := Date_now w;
              history := history a;
              gradioClient := gradioClient a |} ;;
  channelMessage <- chatCall (sendMessage "" true) (channel_sendMessage w) ;;
  chatCall (sendEvent (ai_indicator_update AI_STATE_THINKING
                         (cid channelMessage) (id channelMessage)))
    (fun log => channel_sendEvent w log
                  (ai_indicator_update AI_STATE_THINKING
                     (cid channelMessage) (id channelMessage))) ;;
  ret channelMessage.

Definition handleMessage (e : Event) : M unit :=
  match message e with
  | None => ret tt
  | Some m =>
      if truthy (ai_generated m) then ret tt
      else
        channelMessage <- prologue ;;
        try_catch (exchange m channelMessage) (onError channelMessage)
  end.

(** [init]: the endpoint base is required; connect once, then subscribe. *)
Definition init : M unit :=
  match orElse (GRADIO_BASE_URL (env w)) None with
  | None =>
      throw (ErrorObject
        "GRADIO_BASE_URL is required (set it to your gradio.live share URL, e.g. https://xxxx.gradio.live)")
  | Some baseUrl =>
      liftOutcome (import_gradio_client w) ;;
      c <- remoteCall (connect (Some baseUrl))
             (fun log => Client_connect w log (Some baseUrl)) ;;
      a <- getAgent ;;
      putAgent {| lastInteractionTs := lastInteractionTs a;
                  history := history a;
                  gradioClient := Some c |} ;;
      chatCall on_message_new (chatClient_on w)
  end.

(** [dispose]: only the [close] call sits in a [try]; its promise, if it
    returns one, is not awaited. *)
Definition dispose : M unit :=
  chatCall off_message_new (chatClient_off w) ;;
  a <- getAgent ;;
  match gradioClient a with
  | Some c => try_catch (remoteCall (close c) (fun log => client_close w log c))
                        (fun _ => ret tt)
  | None => ret tt
  end ;;
  chatCall disconnectUser (chatClient_disconnectUser w).

End Methods.

(** A freshly constructed agent: [history = []], no client. *)
Definition newAgent (now : Z) : Agent :=
  {| lastInteractionTs := now; history := []; gradioClient := None |}.

Definition freshSys (a : Agent) : Sys :=
  {| agent := a; chatLog := []; remoteLog := [] |}.

End Bridge.

(* ------------------------------------------------------------------ *)
(** ** How one [handleMessage] run unfolds *)

Module Run.
Import Js Bridge.

(** The chat backend answers every call of an exchange. *)
Definition chatBackendAccepts (w : World) : Prop :=
  (forall log, exists cm, channel_sendMessage w log = Returned cm) /\
  (forall log ev, channel_sendEvent w log ev = Returned tt) /\
  (forall log target txt, chatClient_partialUpdateMessage w log target txt = Returned tt).

(** [s] with more chat calls recorded, with more remote calls recorded,
    with another agent. *)
Definition logChat (s : Sys) (calls : list ChatCall) : Sys :=
  {| agent := agent s; chatLog := chatLog s ++ calls; remoteLog := remoteLog s |}.

Definition logRemote (s : Sys) (calls : list RemoteCall) : Sys :=
  {| agent := agent s; chatLog := chatLog s; remoteLog := remoteLog s ++ calls |}.

Definition withAgent (s : Sys) (a : Agent) : Sys :=
  {| agent := a; chatLog := chatLog s; remoteLog := remoteLog s |}.

Definition stamp (w : World) (a : Agent) : Agent :=
  {| lastInteractionTs := Date_now w; history := history a; gradioClient := gradioClient a |}.

Definition thinking (cm : ChannelMessage) : ChatCall :=
  sendEvent (ai_indicator_update AI_STATE_THINKING (cid cm) (id cm)).
Definition failed (cm : ChannelMessage) : ChatCall :=
  sendEvent (ai_indicator_update AI_STATE_ERROR (cid cm) (id cm)).
Definition cleared (cm : ChannelMessage) : ChatCall :=
  sendEvent (ai_indicator_clear (cid cm) (id cm)).

(** The chat calls of an exchange that publishes [txt], and of one that
    reports [txt] as an error. *)
Definition successCalls (cm : ChannelMessage) (txt : string) : list ChatCall :=
  [sendMessage "" true; thinking cm; partialUpdateMessage (id cm) txt; cleared cm].

Definition failureCalls (cm : ChannelMessage) (txt : string) : list ChatCall :=
  [sendMessage "" true; thinking cm; failed cm; partialUpdateMessage (id cm) txt; cleared cm].




(** The state in which the [try] block starts, and what lines 60-100 yield
    from there. *)
Definition afterPrologue (w : World) (s : Sys) : Sys := snd (prologue w s).

Definition prepared (w : World) (m : Message) (s : Sys) : outcome UserMessage * Sys :=
  prepare w m (afterPrologue w s).

(** Lines 60-100 as one computation: what the remote endpoint is asked and
    what comes back within the bound. *)
Definition callRemote (w : World) (m : Message) : M value :=
  userMessage <- prepare w m ;;
  awaitPredict w userMessage.

(** The result line 100 binds in the exchange that starts in [s]; the
    exchange does not get there when the prologue throws. *)
Definition remoteResult (w : World) (m : Message) (s : Sys) : outcome value :=
  match fst (prologue w s) with
  | Returned _ => fst (callRemote w m (afterPrologue w s))
  | Threw err => Threw err
  end.

(** Lines 60-126 as one computation: everything of the [try] block before
    the reply is published. *)
Definition computeReply (w : World) (m : Message) : M value :=
  result <- callRemote w m ;;
  normalize result.

(** The agent with another history. *)
Definition withHistory (a : Agent) (h : list value) : Agent :=
  {| lastInteractionTs := lastInteractionTs a; history := h; gradioClient := gradioClient a |}.

Definition isTextMutation (c : ChatCall) : bool :=
  match c with partialUpdateMessage _ _ => true | _ => false end.
Definition isClear (c : ChatCall) : bool :=
  match c with sendEvent (ai_indicator_clear _ _) => true | _ => false end.
Definition isPredict (c : RemoteCall) : bool :=
  match c with predict _ _ _ => true | _ => false end.

(** The history slot the normalisation adopts: the state slot when it is an
    array, else the chatbot slot when that is one. *)
Definition adoptedHistory (result : value) : option (list value) :=
  match stateHistory result with
  | VArr h => Some h
  | _ => match chatbotHistory result with
         | VArr h => Some h
         | _ => None
         end
  end.

(** The reply line 123 reads off an adopted history. *)
Definition replyOfHistory (h : list value) : outcome value :=
  match h with
  | [] => Returned (VStr "")
  | _ => lastPairReply h
  end.

(** The chat calls of an exchange that adopted the history [h]: the reply
    read off [h] is published, or the read fails and is reported. *)
Definition callsForHistory (w : World) (cm : ChannelMessage) (h : list value) : list ChatCall :=
  match replyOfHistory h with
  | Returned reply => successCalls cm (toStr (logicalOr reply (VStr "")))
  | Threw err => failureCalls cm (errorText w err)
  end.


End Run.

(* ------------------------------------------------------------------ *)
(** ** The behaviour the specification words describe *)

Module Described.
Import Js Bridge.

(** Every string at or below a value, depth first, in encountered order. *)
Fixpoint stringLeaves (v : value) : list string :=
  match v with
  | VStr s => [s]
  | VArr items => flat_map stringLeaves items
  | VObj props => flat_map (fun kv => stringLeaves (snd kv)) props
  | _ => []
  end.

(** "recursively extract and join any string content found at or below the
    result, depth-first, newline-joined, skipping empty/non-string leaves" *)
Definition extractStrings (v : value) : string :=
  join newline (filter nonEmpty (stringLeaves v)).

(** The text pieces the code collects, depth first: a string gives itself;
    [null], [undefined], [false] and [0] give nothing; any other number or
    boolean gives its [String(..)] form; an array gives the pieces of its
    elements; an object gives the first string among [response], [text],
    [output] when that string is not empty, else the pieces of its [data]
    array, else its [String(..)] form. *)
Fixpoint textPieces (v : value) : list string :=
  match v with
  | VUndef | VNull => []
  | VBool b => if b then [toStr v] else []
  | VNum z => if (z =? 0)%Z then [] else [toStr v]
  | VStr s => [s]
  | VArr items => flat_map textPieces items
  | VObj props =>
      let fromData :=
        (fix dataPieces (kvs : list (string * value)) : list string :=
           match kvs with
           | [] => [toStr v]
           | (k, x) :: rest =>
               if k =? "data" then
                 match x with
                 | VArr items => flat_map textPieces items
                 | _ => [toStr v]
                 end
               else dataPieces rest
           end) props in
      match find isString [lookup "response" props; lookup "text" props; lookup "output" props] with
      | Some (VStr s) => if nonEmpty s then [s] else fromData
      | _ => fromData
      end
  end.

(** "the first non-empty URL from an ordered preference list" *)
Fixpoint firstNonEmpty (candidates : list (option string)) : option string :=
  match candidates with
  | [] => None
  | Some s :: rest => if nonEmpty s then Some s else firstNonEmpty rest
  | None :: rest => firstNonEmpty rest
  end.

(** "the attachments whose type is image, in attachment order, taking for
    each the first non-empty URL ..., dropping image attachments with no
    non-empty URL" *)
Definition resolvedUrls (atts : list Attachment) : list string :=
  flat_map (fun a =>
              if isImage a then
                match firstNonEmpty [image_url a; asset_url a; thumb_url a; og_scrape_url a] with
                | Some u => [u]
                | None => []
                end
              else []) atts.

(** A [ChatPair]: [[userText, assistantText]], both strings. *)
Definition isChatPair (v : value) : bool :=
  match v with
  | VArr [VStr _; VStr _] => true
  | _ => false
  end.

Definition chatPair (userText assistantText : string) : value :=
  VArr [VStr userText; VStr assistantText].

Definition assistantText (pair : value) : string :=
  match pair with
  | VArr [_; VStr a] => a
  | _ => ""
  end.

(** "the assistant-text of its last pair", the empty string on an empty
    history. *)
Definition lastAssistantText (h : list value) : string :=
  match rev h with
  | [] => ""
  | p :: _ => assistantText p
  end.

(** The payload of the primary call style as the specification names it. *)
Definition describedPrimaryPayload (um : UserMessage) : Payload :=
  PayloadObject [("message", um)].

(** The [userMessage] a payload carries. *)
Definition payloadMessages (p : Payload) : list UserMessage :=
  match p with
  | PayloadObject fields => map snd fields
  | PayloadArgs um _ => [um]
  end.

(** A predict call that carries [um]. *)
Definition carries (um : UserMessage) (call : RemoteCall) : Prop :=
  match call with
  | predict _ _ payload => payloadMessages payload = [um]
  | _ => False
  end.

End Described.

(* ------------------------------------------------------------------ *)
(** ** Concrete collaborators *)

Module Scenario.
Import Js Bridge Run Described.

Definition placeholder : ChannelMessage := {| cid := "messaging:c1"; id := "m1" |}.

(** A world whose chat backend accepts everything, whose module import,
    connect and [handle_file] succeed, and whose [n]-th predict call is
    answered by the [n]-th entry of [answers] (never, past the end). *)
Definition scripted (e : ProcessEnv) (answers : list (promise value)) : World :=
  {| env := e;
     Date_now := 1700000000000;
     channel_sendMessage := fun _ => Returned placeholder;
     channel_sendEvent := fun _ _ => Returned tt;
     chatClient_partialUpdateMessage := fun _ _ _ => Returned tt;
     chatClient_on := fun _ => Returned tt;
     chatClient_off := fun _ => Returned tt;
     chatClient_disconnectUser := fun _ => Returned tt;
     import_gradio_client := Returned tt;
     Client_connect := fun _ _ => Returned (ClientHandle 0);
     handle_file := fun u => Returned (FileData u);
     client_predict := fun log _ _ _ =>
       nth (List.length (filter isPredict log)) answers NeverSettles;
     client_close := fun _ _ => Returned tt;
     timer_wins_tie := true |}.

(** The same, with a chat session that refuses to disconnect. *)
Definition stuckSession (e : ProcessEnv) : World :=
  {| env := e;
     Date_now := 1700000000000;
     channel_sendMessage := fun _ => Returned placeholder;
     channel_sendEvent := fun _ _ => Returned tt;
     chatClient_partialUpdateMessage := fun _ _ _ => Returned tt;
     chatClient_on := fun _ => Returned tt;
     chatClient_off := fun _ => Returned tt;
     chatClient_disconnectUser := fun _ => Threw (ErrorObject "WS connection closed");
     import_gradio_client := Returned tt;
     Client_connect := fun _ _ => Returned (ClientHandle 0);
     handle_file := fun u => Returned (FileData u);
     client_predict := fun _ _ _ _ => NeverSettles;
     client_close := fun _ _ => Threw (ErrorObject "already closed");
     timer_wins_tie := true |}.



Definition demoEnv : ProcessEnv :=
  {| GRADIO_BASE_URL := Some "https://demo.gradio.live";
     GRADIO_API_NAME := Some "/chat";
     GRADIO_PREDICT_PATH := None |}.


Definition image (u : option string) (thumb : option string) : Attachment :=
  {| type := Some "image"; image_url := u; asset_url := None;
     thumb_url := thumb; og_scrape_url := None |}.

Definition file : Attachment :=
  {| type := Some "file"; image_url := None; asset_url := None;
     thumb_url := None; og_scrape_url := None |}.

(** [[{type:"image", image_url:"u1"}, {type:"file"}, {type:"image", thumb_url:"u2"}]] *)
Definition exampleAttachments : list Attachment :=
  [image (Some "u1") None; file; image None (Some "u2")].

(** An inbound user message, and the event that carries a message. *)
Definition userSays (txt : string) (atts : list Attachment) : Message :=
  {| text := Some txt; ai_generated := VUndef; attachments := Some atts |}.

Definition inbound (m : Message) : Event := {| message := Some m |}.

Definition botEcho : Message :=
  {| text := Some ""; ai_generated := VBool true; attachments := None |}.

(** An initialised agent. *)
Definition activeAgent : Agent :=
  {| lastInteractionTs := 0; history := []; gradioClient := Some (ClientHandle 0) |}.

(** [{data: ["", {response: "hello"}, "world"]}] *)
Definition nestedResult : value :=
  VObj [("data", VArr [VStr ""; VObj [("response", VStr "hello")]; VStr "world"])].

(** [{data: [null, chatbot, state]}] *)
Definition gradioResult (chatbot state : value) : value :=
  VObj [("data", VArr [VNull; chatbot; state])].

Definition inTime (v : value) : promise value := SettlesAfter 1200 (Returned v).
Definition rejects (msg : string) : promise value := SettlesAfter 300 (Threw (ErrorObject msg)).

End Scenario.

(* ------------------------------------------------------------------ *)
(** ** The agent's life cycle: vocabulary *)

Module Lifecycle.
Import Js Bridge Run.

(** [getLastInteraction = (): number => this.lastInteractionTs] *)
Definition getLastInteraction (a : Agent) : Z := lastInteractionTs a.

(** [e.message.attachments ?? []] *)
Definition attachmentsOf (m : Message) : list Attachment :=
  match attachments m with Some l => l | None => [] end.

Definition isConnect (c : RemoteCall) : bool :=
  match c with connect _ => true | _ => false end.

Definition isClose (c : RemoteCall) : bool :=
  match c with close _ => true | _ => false end.

Definition isSubscription (c : ChatCall) : bool :=
  match c with on_message_new => true | _ => false end.

(** The three ways lines 60-78 can throw [err] in the exchange that starts
    in [s]: the client module does not load; no client is held and the
    connect is rejected; a file handle cannot be made. *)
Definition preparationFails (w : World) (m : Message) (s : Sys) (err : thrown) : Prop :=
  import_gradio_client w = Threw err
  \/ (import_gradio_client w = Returned tt /\
      gradioClient (agent s) = None /\
      Client_connect w (remoteLog s) (GRADIO_BASE_URL (env w)) = Threw err)
  \/ (import_gradio_client w = Returned tt /\
      (gradioClient (agent s) <> None \/
       exists c, Client_connect w (remoteLog s) (GRADIO_BASE_URL (env w)) = Returned c) /\
      mapOutcome (handle_file w) (imageUrls (attachmentsOf m)) = Threw err).

(** The client the agent holds once line 66 is passed. *)
Definition clientAfterConnect (w : World) (s : Sys) : option GradioClient :=
  match gradioClient (agent s) with
  | Some c => Some c
  | None =>
      match Client_connect w (remoteLog s) (GRADIO_BASE_URL (env w)) with
      | Returned c => Some c
      | Threw _ => None
      end
  end.

(** The remote log once line 66 is passed. *)
Definition remoteLogAfterConnect (w : World) (s : Sys) : list RemoteCall :=
  match gradioClient (agent s) with
  | Some _ => remoteLog s
  | None => remoteLog s ++ [connect (GRADIO_BASE_URL (env w))]
  end.

(** The first predict call of an exchange and its retry. *)
Definition primaryCall (w : World) (c : GradioClient) (um : UserMessage) : RemoteCall :=
  predict c (apiName w) (PayloadObject [("message_dict", um)]).

Definition fallbackCall (w : World) (c : GradioClient) (um : UserMessage) (h : list value)
  : RemoteCall :=
  predict c (apiName w) (PayloadArgs um h).

(** How the two attempts are answered in the exchange that starts in [s],
    once [um] is built and the client [c] is held. *)
Definition primaryAnswer (w : World) (s : Sys) (c : GradioClient) (um : UserMessage)
  : promise value :=
  client_predict w (remoteLogAfterConnect w s) c (apiName w) (PayloadObject [("message_dict", um)]).

Definition fallbackAnswer (w : World) (s : Sys) (c : GradioClient) (um : UserMessage)
  : promise value :=
  client_predict w (remoteLogAfterConnect w s ++ [primaryCall w c um]) c (apiName w)
    (PayloadArgs um (history (agent s))).

(** The message [prepare] builds when every handle is made. *)
Definition builtMessage (m : Message) (handles : list FileHandle) : UserMessage :=
  {| um_text := text m; files := handles |}.

(** Lines 68-82 on their own: the message, or the first error of
    [handle_file]. *)
Definition messageOutcome (w : World) (m : Message) : outcome UserMessage :=
  match mapOutcome (handle_file w) (imageUrls (attachmentsOf m)) with
  | Returned handles => Returned (builtMessage m handles)
  | Threw err => Threw err
  end.

(** The state in which [tryPredict] starts, in the exchange that starts in
    [s], when the client [c] is held by then. *)
Definition readyState (w : World) (s : Sys) (c : GradioClient) : Sys :=
  {| agent := {| lastInteractionTs := Date_now w;
                 history := history (agent s);
                 gradioClient := Some c |};
     chatLog := chatLog (afterPrologue w s);
     remoteLog := remoteLogAfterConnect w s |}.

(** Running a method a second time, on the state the first run left. *)
Definition twice {A} (method : M A) : M A := fun s => method (snd (method s)).

End Lifecycle.

(* ------------------------------------------------------------------ *)
(** ** More collaborators *)

Module Faults.
Import Js Bridge Run Scenario.

(** [w] with another answer to [channel.sendMessage]. *)
Definition withSendMessage (w : World) (f : list ChatCall -> outcome ChannelMessage) : World :=
  {| env := env w; Date_now := Date_now w;
     channel_sendMessage := f;
     channel_sendEvent := channel_sendEvent w;
     chatClient_partialUpdateMessage := chatClient_partialUpdateMessage w;
     chatClient_on := chatClient_on w;
     chatClient_off := chatClient_off w;
     chatClient_disconnectUser := chatClient_disconnectUser w;
     import_gradio_client := import_gradio_client w;
     Client_connect := Client_connect w;
     handle_file := handle_file w;
     client_predict := client_predict w;
     client_close := client_close w;
     timer_wins_tie := timer_wins_tie w |}.

(** [w] with another answer to [Client.connect]. *)
Definition withConnect (w : World)
           (f : list RemoteCall -> option string -> outcome GradioClient) : World :=
  {| env := env w; Date_now := Date_now w;
     channel_sendMessage := channel_sendMessage w;
     channel_sendEvent := channel_sendEvent w;
     chatClient_partialUpdateMessage := chatClient_partialUpdateMessage w;
     chatClient_on := chatClient_on w;
     chatClient_off := chatClient_off w;
     chatClient_disconnectUser := chatClient_disconnectUser w;
     import_gradio_client := import_gradio_client w;
     Client_connect := f;
     handle_file := handle_file w;
     client_predict := client_predict w;
     client_close := client_close w;
     timer_wins_tie := timer_wins_tie w |}.

(** [w] with another [handle_file]. *)
Definition withHandleFile (w : World) (f : string -> outcome FileHandle) : World :=
  {| env := env w; Date_now := Date_now w;
     channel_sendMessage := channel_sendMessage w;
     channel_sendEvent := channel_sendEvent w;
     chatClient_partialUpdateMessage := chatClient_partialUpdateMessage w;
     chatClient_on := chatClient_on w;
     chatClient_off := chatClient_off w;
     chatClient_disconnectUser := chatClient_disconnectUser w;
     import_gradio_client := import_gradio_client w;
     Client_connect := Client_connect w;
     handle_file := f;
     client_predict := client_predict w;
     client_close := client_close w;
     timer_wins_tie := timer_wins_tie w |}.

(** [w] with another answer to [chatClient.off]. *)
Definition withOff (w : World) (f : list ChatCall -> outcome unit) : World :=
  {| env := env w; Date_now := Date_now w;
     channel_sendMessage := channel_sendMessage w;
     channel_sendEvent := channel_sendEvent w;
     chatClient_partialUpdateMessage := chatClient_partialUpdateMessage w;
     chatClient_on := chatClient_on w;
     chatClient_off := f;
     chatClient_disconnectUser := chatClient_disconnectUser w;
     import_gradio_client := import_gradio_client w;
     Client_connect := Client_connect w;
     handle_file := handle_file w;
     client_predict := client_predict w;
     client_close := client_close w;
     timer_wins_tie := timer_wins_tie w |}.

(** No endpoint base configured. *)
Definition unconfiguredEnv : ProcessEnv :=
  {| GRADIO_BASE_URL := None; GRADIO_API_NAME := None; GRADIO_PREDICT_PATH := None |}.

(** The chat backend is down: the placeholder cannot be created. *)
Definition chatDown (answers : list (promise value)) : World :=
  withSendMessage (scripted demoEnv answers)
    (fun _ => Threw (ErrorObject "StreamChat error code 16")).

(** The endpoint cannot be reached. *)
Definition offline (answers : list (promise value)) : World :=
  withConnect (scripted demoEnv answers)
    (fun _ _ => Threw (ErrorObject "Could not resolve app config")).

(** Handles can be made for every URL but ["gone"]. *)
Definition oneBadUrl (answers : list (promise value)) : World :=
  withHandleFile (scripted demoEnv answers)
    (fun u => if u =? "gone" then Threw (ErrorObject "Invalid URL") else Returned (FileData u)).

(** Unsubscribing throws. *)
Definition cannotUnsubscribe : World :=
  withOff (scripted demoEnv []) (fun _ => Threw (ErrorObject "client disposed")).

End Faults.

(* ------------------------------------------------------------------ *)
(** ** The chat input of the web client

    [react-stream-ai-assistant/src/components/chat-input.tsx].  The
    component's state is the [files] and [isLoading] it keeps with
    [useState], together with the [value] its parent keeps for it: both
    parents in this repository pass [onValueChange] the setter of the
    state they pass back as [value].  A handler is run to its end before
    the next event is looked at. *)

Module ChatInput.
Import Bridge.

(** The fields of a browser [File] the client reads. *)
Record File : Type := { name : string; size : N; type : string }.

(** White space as [String.prototype.trim] removes it, among the
    characters below 256: tab, line feed, vertical tab, form feed,
    carriage return, space, no-break space. *)
Definition isWhiteSpace (c : ascii) : bool :=
  let n := nat_of_ascii c in
  (((9 <=? n) && (n <=? 13)) || (n =? 32) || (n =? 160))%nat.

Fixpoint trimStart (s : string) : string :=
  match s with
  | EmptyString => EmptyString
  | String c rest => if isWhiteSpace c then trimStart rest else s
  end.

Definition reverse (s : string) : string :=
  string_of_list_ascii (rev (list_ascii_of_string s)).

Definition trimEnd (s : string) : string := reverse (trimStart (reverse s)).

(** [s.trim()] *)
Definition trim (s : string) : string := trimEnd (trimStart s).

(** [f.type.startsWith("image/")] *)
Definition isImageFile (f : File) : bool := String.prefix "image/" (type f).

Record State : Type := {
  value : string;
  isLoading : bool;
  files : list File
}.

(** [useState(false)], [useState<File[]>([])], and the parents'
    [useState("")]. *)
Definition initial : State := {| value := ""; isLoading := false; files := [] |}.

(** The props a handler reads: the two callbacks answer with how the
    promise they return settles. *)
Record Props : Type := {
  isGenerating : bool;
  sendMessage : option (string -> outcome unit);
  onSubmit : option (string -> list File -> outcome unit)
}.

(** Calls on the props and on the console. *)
Inductive Call : Type :=
| onSubmit_called (text : string) (files : list File)
| sendMessage_called (text : string)
| onValueChange_called (text : string)
| console_error.

(** [(!value.trim() && files.length === 0) || isLoading || isGenerating],
    the [disabled] of the submit button. *)
Definition submitDisabled (p : Props) (st : State) : bool :=
  (negb (Js.nonEmpty (trim (value st))) && (List.length (files st) =? 0)%nat)
  || isLoading st || isGenerating p.

(** [handleSubmit]: lines 63-88. *)
Definition handleSubmit (p : Props) (st : State) : list Call * State :=
  let hasText := Js.nonEmpty (trim (value st)) in
  let hasImages := (0 <? List.length (files st))%nat in
  match sendMessage p with
  | None => ([], st)
  | Some send =>
      if (negb hasText && negb hasImages) || isLoading st || isGenerating p then ([], st)
      else
        let (call, answer) :=
          match onSubmit p with
          | Some submit =>
              (onSubmit_called (trim (value st)) (files st), submit (trim (value st)) (files st))
          | None => (sendMessage_called (trim (value st)), send (trim (value st)))
          end in
        match answer with
        | Returned _ =>
            ([call; onValueChange_called ""],
             {| value := ""; isLoading := false; files := [] |})
        | Threw _ =>
            ([call; console_error],
             {| value := value st; isLoading := false; files := files st |})
        end
  end.

(** How the one call [handleSubmit] awaits settles: [onSubmit] when it is
    given, else [sendMessage]. *)
Definition sendOutcome (p : Props) (st : State) : outcome unit :=
  match onSubmit p, sendMessage p with
  | Some submit, _ => submit (trim (value st)) (files st)
  | None, Some send => send (trim (value st))
  | None, None => Returned tt
  end.

(** The call [handleSubmit] awaits. *)
Definition sendCall (p : Props) (st : State) : Call :=
  match onSubmit p with
  | Some _ => onSubmit_called (trim (value st)) (files st)
  | None => sendMessage_called (trim (value st))
  end.

(** [onPickFiles]: lines 90-96; [targetFiles] is [e.target.files]. *)
Definition onPickFiles (targetFiles : option (list File)) (st : State) : State :=
  let picked := filter isImageFile (match targetFiles with Some l => l | None => [] end) in
  if negb (List.length picked =? 0)%nat then
    {| value := value st; isLoading := isLoading st;
       files := firstn 4 (files st ++ picked) |}
  else st.

(** [prev.filter((_, i) => i !== index)], counting from [i]. *)
Fixpoint dropIndex {A} (index i : nat) (l : list A) : list A :=
  match l with
  | [] => []
  | x :: rest =>
      if negb (i =? index)%nat then x :: dropIndex index (S i) rest
      else dropIndex index (S i) rest
  end.

(** [removeFile]: lines 98-100. *)
Definition removeFile (index : nat) (st : State) : State :=
  {| value := value st; isLoading := isLoading st;
     files := dropIndex index 0 (files st) |}.

(** [handleKeyDown]: lines 102-107. *)
Definition handleKeyDown (key : string) (shiftKey : bool) (p : Props) (st : State)
  : list Call * State :=
  if (key =? "Enter") && negb shiftKey then handleSubmit p st else ([], st).

(** What the user can do to the component: type into the text area, pick
    files, remove a thumbnail, submit the form, press a key, press the
    clear button. *)
Inductive UiEvent : Type :=
| Typed (text : string)
| FilesPicked (targetFiles : option (list File))
| ThumbnailRemoved (index : nat)
| FormSubmitted
| KeyPressed (key : string) (shiftKey : bool)
| ClearPressed.

Definition step (p : Props) (ev : UiEvent) (st : State) : State :=
  match ev with
  | Typed text => {| value := text; isLoading := isLoading st; files := files st |}
  | FilesPicked targetFiles => onPickFiles targetFiles st
  | ThumbnailRemoved index => removeFile index st
  | FormSubmitted => snd (handleSubmit p st)
  | KeyPressed key shiftKey => snd (handleKeyDown key shiftKey p st)
  | ClearPressed => {| value := ""; isLoading := isLoading st; files := files st |}
  end.

(** The state after a sequence of events, each with the props of the
    render it happens in. *)
Definition run (events : list (Props * UiEvent)) (st : State) : State :=
  fold_left (fun st pe => step (fst pe) (snd pe) st) events st.

(** What every step keeps: at most four files, all of them images. *)
Definition tidy (st : State) : Prop :=
  (List.length (files st) <= 4)%nat /\ forallb isImageFile (files st) = true.

End ChatInput.

(* ------------------------------------------------------------------ *)
(** ** The channel view of the web client

    [react-stream-ai-assistant/src/components/chat-interface.tsx]: the
    [onSubmit] it passes to the chat input, and [handleStopGenerating]. *)

Module ChatInterface.
Import Bridge.

(** The attachment [onSubmit] builds from an uploaded file. *)
Record ImageAttachment : Type := {
  type : string;
  image_url : string;
  asset_url : string;
  thumb_url : string;
  title : string;
  file_size : N;
  mime_type : string
}.

(** The channel and the send action of its context, as [onSubmit] uses
    them.  All uploads are started before any of them is awaited, so an
    upload is answered by the position of its file; a send is answered by
    the number of sends made before it. *)
Record Channel : Type := {
  cid : string;
  sendImage : nat -> ChatInput.File -> outcome (option string);
  sendMessage : nat -> string -> option (list ImageAttachment) -> outcome unit
}.

Inductive Call : Type :=
| sendImage_called (file : ChatInput.File)
| sendMessage_called (text : string) (attachments : option (list ImageAttachment))
| console_error.

(** Lines 151-162: [res?.file ?? ""], no attachment for an empty URL. *)
Definition attachmentOf (file : ChatInput.File) (res_file : option string)
  : option ImageAttachment :=
  match res_file with
  | Some url =>
      if Js.nonEmpty url then
        Some {| type := "image"; image_url := url; asset_url := url; thumb_url := url;
                title := ChatInput.name file;
                file_size := ChatInput.size file;
                mime_type := ChatInput.type file |}
      else None
  | None => None
  end.

(** The uploads, by position. *)
Fixpoint uploads (ch : Channel) (i : nat) (files : list ChatInput.File)
  : list (outcome (option ImageAttachment)) :=
  match files with
  | [] => []
  | f :: rest =>
      match sendImage ch i f with
      | Returned res_file => Returned (attachmentOf f res_file)
      | Threw err => Threw err
      end :: uploads ch (S i) rest
  end.

(** [await Promise.all(..)]: every value, or a rejection. *)
Fixpoint promiseAll {A} (settled : list (outcome A)) : option (list A) :=
  match settled with
  | [] => Some []
  | Returned a :: rest =>
      match promiseAll rest with
      | Some l => Some (a :: l)
      | None => None
      end
  | Threw _ :: _ => None
  end.

(** [attachments.filter(Boolean)] *)
Definition keepBuilt (l : list (option ImageAttachment)) : list ImageAttachment :=
  flat_map (fun a => match a with Some x => [x] | None => [] end) l.

(** [onSubmit]: lines 145-173. *)
Definition onSubmit (channel : option Channel) (text : string)
           (files : option (list ChatInput.File)) : list Call * outcome unit :=
  match channel with
  | None => ([], Returned tt)
  | Some ch =>
      let fs := match files with Some l => l | None => [] end in
      let started := map sendImage_called fs in
      match promiseAll (uploads ch 0 fs) with
      | Some attachments =>
          let filtered := keepBuilt attachments in
          match sendMessage ch 0 text (Some filtered) with
          | Returned _ =>
              ((started ++ [sendMessage_called text (Some filtered)])%list, Returned tt)
          | Threw _ =>
              ((started ++ [sendMessage_called text (Some filtered); console_error;
                            sendMessage_called text None])%list,
               sendMessage ch 1 text None)
          end
      | None =>
          ((started ++ [console_error; sendMessage_called text None])%list,
           sendMessage ch 0 text None)
      end
  end.

(** The URLs the uploads returned, by position, the empty and missing
    ones left out. *)
Fixpoint uploadedUrls (ch : Channel) (i : nat) (files : list ChatInput.File) : list string :=
  match files with
  | [] => []
  | f :: rest =>
      match sendImage ch i f with
      | Returned (Some url) => if Js.nonEmpty url then [url] else []
      | _ => []
      end ++ uploadedUrls ch (S i) rest
  end.

Definition carriesAttachments (c : Call) : bool :=
  match c with sendMessage_called _ (Some _) => true | _ => false end.

Definition isUpload (c : Call) : bool :=
  match c with sendImage_called _ => true | _ => false end.

(** The attachment as the agent reads it from the inbound message. *)
Definition asReceived (a : ImageAttachment) : Attachment :=
  {| Bridge.type := Some (type a);
     Bridge.image_url := Some (image_url a);
     Bridge.asset_url := Some (asset_url a);
     Bridge.thumb_url := Some (thumb_url a);
     Bridge.og_scrape_url := None |}.

(** The fields of a channel message [handleStopGenerating] reads. *)
Record ChatMessage : Type := { id : string; user_id : option string }.

(** [m.user?.id.startsWith("ai-bot")] *)
Definition fromBot (m : ChatMessage) : bool :=
  match user_id m with
  | Some uid => String.prefix "ai-bot" uid
  | None => false
  end.

Inductive ChannelEvent : Type :=
| ai_indicator_stop (ev_cid message_id : string).

(** [handleStopGenerating]: lines 130-143; the events it sends. *)
Definition handleStopGenerating (channel : option Channel) (messages : list ChatMessage)
  : list ChannelEvent :=
  match channel with
  | None => []
  | Some ch =>
      match find fromBot (rev messages) with
      | Some aiMessage => [ai_indicator_stop (cid ch) (id aiMessage)]
      | None => []
      end
  end.

End ChatInterface.

(* ------------------------------------------------------------------ *)
(** ** Facts about the pure helpers *)

Unset Implicit Arguments.

Module PureFacts.
Import Js Bridge Run Described.

Lemma append_assoc (a b c : string) : ((a ++ b) ++ c = a ++ (b ++ c))%string.
Proof. induction a as [|x a IH]; simpl; [reflexivity | now rewrite IH]. Qed.

Section Joining.
Variable sep : string.

Lemma glue_empty_r x : glue sep x "" = x.
Proof. unfold glue. destruct x; reflexivity. Qed.

Lemma glue_assoc x y z : glue sep x (glue sep y z) = glue sep (glue sep x y) z.
Proof.
  unfold glue.
  destruct x as [|a x]; simpl; [reflexivity|].
  destruct y as [|b y]; simpl.
  - destruct z; reflexivity.
  - destruct z as [|c z]; simpl; [reflexivity|].
    now rewrite !append_assoc.
Qed.

Lemma joinKept_nil_iff parts : joinKept sep parts = "" <-> filter nonEmpty parts = [].
Proof.
  unfold joinKept, join.
  induction parts as [|p parts IH]; simpl; [tauto|].
  destruct p as [|c p]; simpl; [exact IH|].
  split; [|discriminate].
  destruct (filter nonEmpty parts); simpl; discriminate.
Qed.

Lemma joinKept_cons x parts : joinKept sep (x :: parts) = glue sep x (joinKept sep parts).
Proof.
  unfold glue. destruct x as [|c x]; [reflexivity|].
  cbn [String.eqb].
  destruct (joinKept sep parts =? "") eqn:E.
  - apply String.eqb_eq in E. apply joinKept_nil_iff in E.
    unfold joinKept, join. simpl. now rewrite E.
  - unfold joinKept, join in *. simpl.
    destruct (filter nonEmpty parts); [discriminate E | reflexivity].
Qed.

Lemma joinKept_app a b : joinKept sep (a ++ b) = glue sep (joinKept sep a) (joinKept sep b).
Proof.
  induction a as [|x a IH]; simpl.
  - reflexivity.
  - now rewrite !joinKept_cons, IH, glue_assoc.
Qed.

Lemma joinKept_singleton x : joinKept sep [x] = x.
Proof. now rewrite joinKept_cons, glue_empty_r. Qed.

(** Joining the joined groups is joining everything. *)
Lemma joinKept_concat groups :
  joinKept sep (map (joinKept sep) groups) = joinKept sep (List.concat groups).
Proof.
  induction groups as [|g groups IH]; simpl; [reflexivity|].
  now rewrite joinKept_cons, joinKept_app, IH.
Qed.

Lemma joinKept_flat_map {A} (f : A -> list string) (g : A -> string) items :
  Forall (fun x => g x = joinKept sep (f x)) items ->
  joinKept sep (map g items) = joinKept sep (flat_map f items).
Proof.
  intros H. rewrite flat_map_concat_map, <- joinKept_concat, map_map.
  f_equal. induction H; simpl; congruence.
Qed.

End Joining.

(** [parseText] on an object, by property reads. *)
Lemma parseText_object props :
  parseText (VObj props) =
    let fromData :=
      match lookup "data" props with
      | VArr items => join newline (filter nonEmpty (map parseText items))
      | _ => "[object Object]"
      end in
    match find isString [lookup "response" props; lookup "text" props; lookup "output" props] with
    | Some (VStr s) => if nonEmpty s then s else fromData
    | _ => fromData
    end.
Proof.
  cbn [parseText truthy negb].
  set (viaEntries := (fix dataText (kvs : list (string * value)) : string := _) props).
  assert (E : viaEntries =
              match lookup "data" props with
              | VArr items => join newline (filter nonEmpty (map parseText items))
              | _ => "[object Object]"
              end).
  { subst viaEntries. induction props as [|[k v] props IH]; [reflexivity|].
    cbn [lookup]. destruct (k =? "data"); [destruct v; reflexivity | exact IH]. }
  now rewrite E.
Qed.

(** The text [parseText] returns is its pieces, the empty ones dropped,
    joined by line feeds. *)
Lemma parseText_pieces v : parseText v = joinKept newline (textPieces v).
Proof.
  induction v as [ | |b|z|s|items IH|props IH] using value_nested_ind.
  - reflexivity.
  - reflexivity.
  - destruct b; reflexivity.
  - cbn [parseText truthy textPieces]. destruct (z =? 0)%Z; cbn [negb].
    + reflexivity.
    + now rewrite joinKept_singleton.
  - destruct s; [reflexivity|]. symmetry. apply joinKept_singleton.
  - cbn [parseText truthy negb textPieces].
    exact (joinKept_flat_map newline textPieces parseText items IH).
  - rewrite parseText_object. cbn [textPieces].
    set (pieces := (fix dataPieces (kvs : list (string * value)) : list string := _) props).
    assert (E : match lookup "data" props with
                | VArr items => join newline (filter nonEmpty (map parseText items))
                | _ => "[object Object]"
                end = joinKept newline pieces).
    { subst pieces. induction IH as [|[k x] props Hx _ IHprops]; [reflexivity|].
      cbn [lookup]. destruct (k =? "data"); [|exact IHprops].
      destruct x; try reflexivity.
      exact Hx. }
    cbv zeta. rewrite E.
    destruct (find isString _) as [[ | | | |s| | ]|]; try reflexivity.
    destruct (nonEmpty s) eqn:Es; [|reflexivity].
    now rewrite joinKept_singleton.
Qed.

(** The [||] chain followed by the filter picks the first non-empty
    candidate. *)
Lemma attachmentUrl_firstNonEmpty a :
  keepUrls [attachmentUrl a] =
    match firstNonEmpty [image_url a; asset_url a; thumb_url a; og_scrape_url a] with
    | Some u => [u]
    | None => []
    end.
Proof.
  unfold attachmentUrl.
  destruct (image_url a) as [[|? ?]|], (asset_url a) as [[|? ?]|],
           (thumb_url a) as [[|? ?]|], (og_scrape_url a) as [[|? ?]|]; reflexivity.
Qed.

Lemma keepUrls_cons u urls : keepUrls (u :: urls) = (keepUrls [u] ++ keepUrls urls)%list.
Proof. unfold keepUrls. simpl. now rewrite app_nil_r. Qed.

Lemma imageUrls_resolvedUrls atts : imageUrls atts = resolvedUrls atts.
Proof.
  unfold imageUrls, resolvedUrls.
  induction atts as [|a atts IH]; [reflexivity|].
  cbn [filter flat_map]. destruct (isImage a).
  - cbn [map]. now rewrite keepUrls_cons, attachmentUrl_firstNonEmpty, IH.
  - exact IH.
Qed.

End PureFacts.

(* ------------------------------------------------------------------ *)
(** ** Facts about a run *)

Module RunFacts.
Import Js Bridge Run Described PureFacts.

Ltac unfold_async :=
  unfold bind, ret, throw, try_catch, liftOutcome, getAgent, putAgent, chatCall, remoteCall.

Section OneWorld.
Variable w : World.

(** **** The pieces that talk to the chat backend *)

Lemma prologue_run s :
  chatBackendAccepts w ->
  exists cm,
    channel_sendMessage w (chatLog s) = Returned cm /\
    prologue w s =
      (Returned cm,
       logChat (withAgent s (stamp w (agent s))) [sendMessage "" true; thinking cm]).
Proof.
  intros (Hmsg & Hev & _).
  destruct (Hmsg (chatLog s)) as [cm Hcm]. exists cm. split; [exact Hcm|].
  unfold prologue. unfold_async. cbn. rewrite Hcm, Hev.
  unfold logChat, withAgent, thinking. cbn. now rewrite <- app_assoc.
Qed.

Lemma publish_run cm reply s :
  chatBackendAccepts w ->
  publish w cm reply s =
    (Returned tt,
     logChat s [partialUpdateMessage (id cm) (toStr (logicalOr reply (VStr ""))); cleared cm]).
Proof.
  intros (_ & Hev & Hupd).
  unfold publish. unfold_async. cbn. rewrite Hupd, Hev.
  unfold logChat, cleared. cbn. now rewrite <- app_assoc.
Qed.

Lemma onError_run cm err s :
  chatBackendAccepts w ->
  onError w cm err s =
    (Returned tt,
     logChat s [failed cm; partialUpdateMessage (id cm) (errorText w err); cleared cm]).
Proof.
  intros (_ & Hev & Hupd).
  unfold onError. unfold_async. cbn. rewrite Hev, Hupd, Hev.
  unfold logChat, cleared, failed. cbn. now rewrite <- !app_assoc.
Qed.

(** **** The pieces that talk to the remote endpoint *)

(** [prepare] makes no chat call and keeps the history; when it returns,
    a client is held, and the only remote call it may have made is the
    lazy [connect]. *)
Lemma prepare_frame m s :
  let s' := snd (prepare w m s) in
  chatLog s' = chatLog s /\
  history (agent s') = history (agent s) /\
  lastInteractionTs (agent s') = lastInteractionTs (agent s) /\
  filter isPredict (remoteLog s') = filter isPredict (remoteLog s).
Proof.
  unfold prepare, ensureClient. unfold_async. cbn.
  destruct (import_gradio_client w); cbn; [|now auto].
  destruct (gradioClient (agent s)); cbn.
  - destruct (mapOutcome _ _); cbn; auto.
  - destruct (Client_connect w _ _); cbn.
    + destruct (mapOutcome _ _); cbn; rewrite filter_app, app_nil_r; auto.
    + rewrite filter_app, app_nil_r; auto.
Qed.

Lemma prepare_returns m s um s' :
  prepare w m s = (Returned um, s') ->
  (exists c, gradioClient (agent s') = Some c) /\
  um_text um = text m /\
  mapOutcome (handle_file w)
    (imageUrls (match attachments m with Some l => l | None => [] end))
  = Returned (files um).
Proof.
  unfold prepare, ensureClient. unfold_async. cbn.
  destruct (import_gradio_client w); cbn; [|discriminate].
  destruct (gradioClient (agent s)) as [c|] eqn:Ec; cbn.
  - destruct (mapOutcome _ _) eqn:Ef; cbn; [|discriminate].
    intros [= <- <-]. cbn. rewrite Ec. eauto.
  - destruct (Client_connect w _ _) as [c|]; cbn; [|discriminate].
    destruct (mapOutcome _ _) eqn:Ef; cbn; [|discriminate].
    intros [= <- <-]. cbn. eauto.
Qed.

(** [tryPredict] only appends to the remote log. *)
Lemma tryPredict_frame um s :
  let s' := snd (tryPredict w um s) in
  agent s' = agent s /\ chatLog s' = chatLog s.
Proof.
  unfold tryPredict, predictOnce.
  destruct (gradioClient (agent s)) as [c|] eqn:Ec; cbn.
  - destruct (client_predict w (remoteLog s) c _ _) as [t [v|err]|]; cbn; auto.
    rewrite Ec. destruct (client_predict w _ c _ _); cbn; auto.
  - rewrite Ec. cbn. auto.
Qed.

Lemma awaitPredict_frame um s :
  let s' := snd (awaitPredict w um s) in
  agent s' = agent s /\ chatLog s' = chatLog s.
Proof.
  unfold awaitPredict. generalize (tryPredict_frame um s).
  destruct (tryPredict w um s) as [p s']. cbn. auto.
Qed.

Lemma callRemote_frame m s :
  let s' := snd (callRemote w m s) in
  chatLog s' = chatLog s /\
  history (agent s') = history (agent s) /\
  lastInteractionTs (agent s') = lastInteractionTs (agent s).
Proof.
  unfold callRemote, bind.
  generalize (prepare_frame m s).
  destruct (prepare w m s) as [[um|err] s1]; cbn; [|tauto].
  intros (Hc & Hh & Ht & _).
  generalize (awaitPredict_frame um s1).
  destruct (awaitPredict w um s1) as [r s2]. cbn.
  intros (Ha & Hc2). rewrite Ha, Hc2.
  destruct r; cbn; auto.
Qed.

(** **** Normalising the result *)

Lemma normalize_adopts result h s :
  adoptedHistory result = Some h ->
  normalize result s = (replyOfHistory h, withAgent s (withHistory (agent s) h)).
Proof.
  unfold adoptedHistory, normalize. unfold_async.
  destruct (stateHistory result) as [ | | | | |h2| ] eqn:E2;
    destruct (chatbotHistory result) as [ | | | | |h1| ] eqn:E1;
    cbn; try discriminate; intros [= ->]; destruct h; reflexivity.
Qed.

Lemma normalize_extracts result s :
  adoptedHistory result = None ->
  normalize result s =
    (Returned (VStr (parseText (nullish (optProp result "data") result))), s).
Proof.
  unfold adoptedHistory, normalize. unfold_async.
  destruct (stateHistory result); destruct (chatbotHistory result);
    cbn; try discriminate; reflexivity.
Qed.

Lemma adoptedHistory_none result :
  adoptedHistory result = None <->
  isArray (stateHistory result) = false /\ isArray (chatbotHistory result) = false.
Proof.
  unfold adoptedHistory.
  destruct (stateHistory result); destruct (chatbotHistory result); cbn;
    split; try tauto; try discriminate; intros []; discriminate.
Qed.

Lemma normalize_chatLog result s : chatLog (snd (normalize result s)) = chatLog s.
Proof.
  destruct (adoptedHistory result) as [h|] eqn:E.
  - now rewrite (normalize_adopts _ _ _ E).
  - now rewrite (normalize_extracts _ _ E).
Qed.

Lemma computeReply_chatLog m s : chatLog (snd (computeReply w m s)) = chatLog s.
Proof.
  unfold computeReply, bind.
  generalize (callRemote_frame m s).
  destruct (callRemote w m s) as [[result|err] s1]; cbn; [|tauto].
  intros (Hc & _). now rewrite normalize_chatLog.
Qed.

(** **** The whole handler *)

Lemma exchange_split m cm s :
  exchange w m cm s = bind (computeReply w m) (publish w cm) s.
Proof.
  unfold exchange, computeReply, callRemote, bind.
  destruct (prepare w m s) as [[um|err] s1]; [|reflexivity].
  destruct (awaitPredict w um s1) as [[result|err] s2]; [|reflexivity].
  destruct (normalize result s2) as [[reply|err] s3]; reflexivity.
Qed.

Lemma bind_ext {A B} (m : M A) (k1 k2 : A -> M B) s :
  (forall a s', k1 a s' = k2 a s') -> bind m k1 s = bind m k2 s.
Proof. intros H. unfold bind. destruct (m s) as [[a|err] s']; auto. Qed.

(** The handler on a message that is not machine-generated. *)
Lemma handleMessage_eq e m s :
  message e = Some m ->
  truthy (ai_generated m) = false ->
  handleMessage w e s =
    bind (prologue w)
         (fun cm => try_catch (bind (computeReply w m) (publish w cm)) (onError w cm)) s.
Proof.
  intros Hm Hai. unfold handleMessage. rewrite Hm, Hai.
  apply bind_ext. intros cm s'. unfold try_catch. now rewrite exchange_split.
Qed.

(** With a chat backend that answers, the handler is the prologue, the
    computation of the reply, and one of two endings. *)
Lemma handleMessage_unfolds e m s :
  chatBackendAccepts w ->
  message e = Some m ->
  truthy (ai_generated m) = false ->
  exists cm,
    channel_sendMessage w (chatLog s) = Returned cm /\
    afterPrologue w s =
      logChat (withAgent s (stamp w (agent s))) [sendMessage "" true; thinking cm] /\
    handleMessage w e s =
      (Returned tt,
       match computeReply w m (afterPrologue w s) with
       | (Returned reply, s') =>
           logChat s' [partialUpdateMessage (id cm) (toStr (logicalOr reply (VStr ""))); cleared cm]
       | (Threw err, s') =>
           logChat s' [failed cm; partialUpdateMessage (id cm) (errorText w err); cleared cm]
       end).
Proof.
  intros Hw Hm Hai.
  destruct (prologue_run s Hw) as (cm & Hcm & Hpro).
  exists cm. split; [exact Hcm|].
  unfold afterPrologue. rewrite Hpro. cbn [snd]. split; [reflexivity|].
  unfold handleMessage. rewrite Hm, Hai.
  unfold bind at 1. rewrite Hpro.
  unfold try_catch. rewrite exchange_split. unfold bind.
  destruct (computeReply w m _) as [[reply|err] s'].
  - now rewrite publish_run.
  - now rewrite onError_run.
Qed.

(** The chat calls of one exchange. *)
Lemma handleMessage_chatLog e m s :
  chatBackendAccepts w ->
  message e = Some m ->
  truthy (ai_generated m) = false ->
  exists cm,
    channel_sendMessage w (chatLog s) = Returned cm /\
    fst (handleMessage w e s) = Returned tt /\
    chatLog (snd (handleMessage w e s)) =
      (chatLog s ++
       match fst (computeReply w m (afterPrologue w s)) with
       | Returned reply => successCalls cm (toStr (logicalOr reply (VStr "")))
       | Threw err => failureCalls cm (errorText w err)
       end)%list.
Proof.
  intros Hw Hm Hai.
  destruct (handleMessage_unfolds e m s Hw Hm Hai) as (cm & Hcm & Hpro & Hrun).
  exists cm. split; [exact Hcm|]. rewrite Hrun. cbn [fst snd]. split; [reflexivity|].
  generalize (computeReply_chatLog m (afterPrologue w s)).
  destruct (computeReply w m (afterPrologue w s)) as [[reply|err] s']; cbn [fst snd];
    intros Hc; unfold logChat; cbn [chatLog]; rewrite Hc, Hpro; cbn;
    now rewrite <- app_assoc.
Qed.

End OneWorld.

End RunFacts.

(* ------------------------------------------------------------------ *)
(** ** What reaches the remote endpoint, and what happens to the agent *)

Module RemoteFacts.
Import Js Bridge Run Described PureFacts RunFacts.

Section OneWorld.
Variable w : World.

(** Chat-side pieces leave the agent and the remote log alone, whatever
    the backend answers. *)
Lemma prologue_frame s :
  let s' := snd (prologue w s) in
  agent s' = stamp w (agent s) /\ remoteLog s' = remoteLog s.
Proof.
  unfold prologue. unfold_async. cbn.
  destruct (channel_sendMessage w (chatLog s)); cbn; [|auto].
  destruct (channel_sendEvent w _ _); cbn; auto.
Qed.

Lemma publish_frame cm reply s :
  let s' := snd (publish w cm reply s) in
  agent s' = agent s /\ remoteLog s' = remoteLog s.
Proof.
  unfold publish. unfold_async. cbn.
  destruct (chatClient_partialUpdateMessage w _ _ _); cbn; auto.
Qed.

Lemma onError_frame cm err s :
  let s' := snd (onError w cm err s) in
  agent s' = agent s /\ remoteLog s' = remoteLog s.
Proof.
  unfold onError. unfold_async. cbn.
  destruct (channel_sendEvent w _ _); cbn; [|auto].
  destruct (chatClient_partialUpdateMessage w _ _ _); cbn; auto.
Qed.

(** The calls [tryPredict] makes on a held client: the object payload, and
    the argument array right after it exactly when the first call rejects. *)
Lemma tryPredict_calls um s c :
  gradioClient (agent s) = Some c ->
  let primary := predict c (apiName w) (PayloadObject [("message_dict", um)]) in
  let fallback := predict c (apiName w) (PayloadArgs um (history (agent s))) in
  tryPredict w um s =
    match client_predict w (remoteLog s) c (apiName w) (PayloadObject [("message_dict", um)]) with
    | SettlesAfter t (Threw _) =>
        (match client_predict w (remoteLog s ++ [primary]) c (apiName w)
                 (PayloadArgs um (history (agent s))) with
         | SettlesAfter t' r => SettlesAfter (t + t') r
         | NeverSettles => NeverSettles
         end,
         logRemote s [primary; fallback])
    | answer => (answer, logRemote s [primary])
    end.
Proof.
  intros Ec. unfold tryPredict, predictOnce. rewrite Ec.
  destruct (client_predict w (remoteLog s) c _ _) as [t [v|err]|]; cbn; try reflexivity.
  rewrite Ec. unfold logRemote.
  destruct (client_predict w _ c _ _); cbn; now rewrite <- app_assoc.
Qed.

Lemma tryPredict_remoteLog um s :
  exists calls,
    remoteLog (snd (tryPredict w um s)) = (remoteLog s ++ calls)%list /\
    Forall (carries um) calls.
Proof.
  destruct (gradioClient (agent s)) as [c|] eqn:Ec.
  - rewrite (tryPredict_calls um s c Ec).
    destruct (client_predict w (remoteLog s) c _ _) as [t [v|err]|]; cbn;
      eexists; (split; [reflexivity|]); repeat constructor.
  - unfold tryPredict, predictOnce. rewrite Ec. cbn. rewrite Ec. cbn.
    exists []. split; [now rewrite app_nil_r | constructor].
Qed.

Lemma normalize_frame result s :
  let s' := snd (normalize result s) in
  remoteLog s' = remoteLog s /\
  gradioClient (agent s') = gradioClient (agent s) /\
  lastInteractionTs (agent s') = lastInteractionTs (agent s).
Proof.
  destruct (adoptedHistory result) as [h|] eqn:E.
  - rewrite (normalize_adopts _ _ _ E). cbn. auto.
  - rewrite (normalize_extracts _ _ E). cbn. auto.
Qed.

Lemma prepare_remoteLog m s :
  exists calls,
    remoteLog (snd (prepare w m s)) = (remoteLog s ++ calls)%list /\
    filter isPredict calls = [].
Proof.
  unfold prepare, ensureClient. unfold_async. cbn.
  destruct (import_gradio_client w); cbn;
    [|exists []; split; [now rewrite app_nil_r | reflexivity]].
  destruct (gradioClient (agent s)); cbn.
  - exists []. destruct (mapOutcome _ _); cbn; split; try reflexivity; now rewrite app_nil_r.
  - eexists [_]. destruct (Client_connect w _ _); cbn; [destruct (mapOutcome _ _)|];
      cbn; split; reflexivity.
Qed.

(** Every predict call of [computeReply] carries the message that
    [prepare] built. *)
Lemma computeReply_remoteLog m s :
  exists calls,
    remoteLog (snd (computeReply w m s)) = (remoteLog s ++ calls)%list /\
    forall c api payload, In (predict c api payload) calls ->
      exists um s1, prepare w m s = (Returned um, s1) /\ payloadMessages payload = [um].
Proof.
  unfold computeReply, callRemote, bind.
  destruct (prepare_remoteLog m s) as (d1 & Hd1 & Hnone).
  assert (Hd1none : forall c api payload, ~ In (predict c api payload) d1).
  { intros c api payload Hin.
    assert (Hin' : In (predict c api payload) (filter isPredict d1))
      by (apply filter_In; split; [exact Hin | reflexivity]).
    rewrite Hnone in Hin'. exact Hin'. }
  destruct (prepare w m s) as [[um|err] s1] eqn:Eprep; cbn [snd] in *.
  - unfold awaitPredict.
    destruct (tryPredict_remoteLog um s1) as (d2 & Hd2 & Hcar).
    destruct (tryPredict w um s1) as [p s2]. cbn [snd] in Hd2.
    destruct (withTimeout _ p _) as [result|err]; cbn [fst snd].
    + destruct (normalize_frame result s2) as (Hr & _). rewrite Hr, Hd2, Hd1.
      exists (d1 ++ d2)%list. split; [now rewrite app_assoc|].
      intros c api payload Hin. apply in_app_or in Hin as [Hin|Hin];
        [now apply Hd1none in Hin|].
      rewrite Forall_forall in Hcar. specialize (Hcar _ Hin). eauto.
    + rewrite Hd2, Hd1.
      exists (d1 ++ d2)%list. split; [now rewrite app_assoc|].
      intros c api payload Hin. apply in_app_or in Hin as [Hin|Hin];
        [now apply Hd1none in Hin|].
      rewrite Forall_forall in Hcar. specialize (Hcar _ Hin). eauto.
  - exists d1. split; [exact Hd1|]. intros c api payload Hin. now apply Hd1none in Hin.
Qed.

(** What a run of the handler leaves behind on the remote side and in the
    agent, whatever the chat backend answers. *)
Lemma handleMessage_state e m s :
  message e = Some m ->
  truthy (ai_generated m) = false ->
  let s' := snd (handleMessage w e s) in
  match fst (prologue w s) with
  | Returned _ =>
      agent s' = agent (snd (computeReply w m (afterPrologue w s))) /\
      remoteLog s' = remoteLog (snd (computeReply w m (afterPrologue w s)))
  | Threw _ =>
      agent s' = stamp w (agent s) /\ remoteLog s' = remoteLog s
  end.
Proof.
  intros Hm Hai. cbv zeta.
  rewrite (handleMessage_eq w e m s Hm Hai).
  unfold afterPrologue, try_catch, bind.
  destruct (prologue_frame s) as (Ha & Hr).
  destruct (prologue w s) as [[cm|err] s1]; cbn [fst snd] in *; [|now split].
  destruct (computeReply w m s1) as [[reply|err] s2]; cbv beta iota; cbn [snd].
  - destruct (publish_frame cm reply s2) as (Ha' & Hr').
    destruct (publish w cm reply s2) as [[[]|err] s3]; cbv beta iota; cbn [snd] in *.
    + now split.
    + destruct (onError_frame cm err s3) as (Ha2 & Hr2). rewrite Ha2, Hr2. now split.
  - destruct (onError_frame cm err s2) as (Ha' & Hr'). now split.
Qed.

Lemma afterPrologue_frame s :
  history (agent (afterPrologue w s)) = history (agent s) /\
  remoteLog (afterPrologue w s) = remoteLog s.
Proof.
  unfold afterPrologue. destruct (prologue_frame s) as (Ha & Hr). rewrite Ha, Hr. now split.
Qed.

Lemma remoteResult_returned m s result :
  remoteResult w m s = Returned result ->
  (exists cm, fst (prologue w s) = Returned cm) /\
  fst (callRemote w m (afterPrologue w s)) = Returned result.
Proof.
  unfold remoteResult. destruct (fst (prologue w s)) as [cm|err]; [|discriminate].
  intros H. split; [now exists cm | exact H].
Qed.

(** The history after a run is the one before it, unless a returned
    history was adopted. *)
Lemma computeReply_history m s :
  let s' := snd (computeReply w m s) in
  match fst (callRemote w m s) with
  | Returned result =>
      match adoptedHistory result with
      | Some h => history (agent s') = h
      | None => history (agent s') = history (agent s)
      end
  | Threw _ => history (agent s') = history (agent s)
  end.
Proof.
  unfold computeReply, bind.
  destruct (callRemote_frame w m s) as (_ & Hh & _).
  destruct (callRemote w m s) as [[result|err] s1]; cbn [fst snd] in *; [|exact Hh].
  destruct (adoptedHistory result) as [h|] eqn:E.
  - now rewrite (normalize_adopts _ _ _ E).
  - now rewrite (normalize_extracts _ _ E).
Qed.

Lemma computeReply_of_result m s result :
  fst (callRemote w m s) = Returned result ->
  fst (computeReply w m s) = fst (normalize result (snd (callRemote w m s))).
Proof.
  unfold computeReply, bind.
  destruct (callRemote w m s) as [[r|err] s1]; cbn; [intros [= ->]; reflexivity | discriminate].
Qed.

End OneWorld.

End RemoteFacts.

(* ------------------------------------------------------------------ *)
(** ** What reaches the channel, whatever the chat backend answers *)

Module ChatFacts.
Import Js Bridge Run Described PureFacts RunFacts RemoteFacts.




Section OneWorld.
Variable w : World.






End OneWorld.

End ChatFacts.

(* ------------------------------------------------------------------ *)
(** ** The bridge's properties

    What an exchange writes into the channel depends on the chat backend
    taking the calls: where a statement about those writes needs the
    backend to accept them it says so with [chatBackendAccepts], next to
    what holds in every world.  What happens to the agent's history and
    what is sent to the remote endpoint is proved for every world. *)

Import Js Bridge Run Described Scenario PureFacts RunFacts RemoteFacts ChatFacts.

Lemma scripted_accepts env answers : chatBackendAccepts (scripted env answers).
Proof.
  split; [intros log; now exists placeholder | split; reflexivity].
Qed.

Lemma toStr_or_text t : toStr (logicalOr (VStr t) (VStr "")) = t.
Proof. destruct t; reflexivity. Qed.

(** *** The loop-prevention guard *)

Lemma handleMessage_ignores_ai_generated_run (w : World) (e : Event) (m : Message) (s : Sys) :
  message e = Some m ->
  truthy (ai_generated m) = true ->
  handleMessage w e s = (Returned tt, s).
Proof.
  intros Hm Hai. unfold handleMessage. now rewrite Hm, Hai.
Qed.

(** C1. An inbound message flagged machine-generated is dropped before
    anything happens: the handler returns at once, the agent (its
    timestamp included) is untouched, and neither log grows, so no
    placeholder is created, no indicator event is sent and no predict call
    is made. *)
Theorem handleMessage_ignores_ai_generated (w : World) (e : Event) (m : Message) (s : Sys) :
  message e = Some m ->
  truthy (ai_generated m) = true ->
  handleMessage w e s = (Returned tt, s) /\
  chatLog (snd (handleMessage w e s)) = chatLog s /\
  remoteLog (snd (handleMessage w e s)) = remoteLog s /\
  agent (snd (handleMessage w e s)) = agent s.
Proof.
  intros Hm Hai. rewrite (handleMessage_ignores_ai_generated_run w e m s Hm Hai).
  now repeat split.
Qed.

Lemma handleMessage_ignores_ai_generated_witness :
  handleMessage (scripted demoEnv [inTime (VStr "again")]) (inbound botEcho) (freshSys activeAgent)
  = (Returned tt, freshSys activeAgent).
Proof.
  apply (handleMessage_ignores_ai_generated
           (scripted demoEnv [inTime (VStr "again")]) (inbound botEcho) botEcho
           (freshSys activeAgent)); reflexivity.
Defined.

(** *** One placeholder, one text, one clear *)





(** *** After the remote result is in *)

(** The history after an exchange that got a result: the adopted slot, or
    the history as it was.  No assumption on the chat backend. *)
Lemma handleMessage_history (w : World) (e : Event) (m : Message) (s : Sys) (result : value) :
  message e = Some m ->
  truthy (ai_generated m) = false ->
  remoteResult w m s = Returned result ->
  history (agent (snd (handleMessage w e s))) =
    match adoptedHistory result with
    | Some h => h
    | None => history (agent s)
    end.
Proof.
  intros Hm Hai Hres.
  destruct (remoteResult_returned w m s result Hres) as ((cm & Hpro) & Hcall).
  generalize (handleMessage_state w e m s Hm Hai). cbv zeta. rewrite Hpro. intros (-> & _).
  generalize (computeReply_history w m (afterPrologue w s)). cbv zeta. rewrite Hcall.
  destruct (adoptedHistory result); [easy|].
  intros ->. apply afterPrologue_frame.
Qed.

(** The chat calls of an exchange that got a result, with a chat backend
    that answers. *)
Lemma handleMessage_published (w : World) (e : Event) (m : Message) (s : Sys) (result : value) :
  chatBackendAccepts w ->
  message e = Some m ->
  truthy (ai_generated m) = false ->
  remoteResult w m s = Returned result ->
  exists cm,
    channel_sendMessage w (chatLog s) = Returned cm /\
    chatLog (snd (handleMessage w e s)) =
      (chatLog s ++
       match adoptedHistory result with
       | Some h => callsForHistory w cm h
       | None => successCalls cm (parseText (nullish (optProp result "data") result))
       end)%list.
Proof.
  intros Hw Hm Hai Hres.
  destruct (remoteResult_returned w m s result Hres) as (_ & Hcall).
  destruct (handleMessage_chatLog w e m s Hw Hm Hai) as (cm & Hcm & _ & Hlog).
  exists cm. split; [exact Hcm|]. rewrite Hlog.
  rewrite (computeReply_of_result w m _ result Hcall).
  destruct (adoptedHistory result) as [h|] eqn:Hadopt.
  - now rewrite (normalize_adopts _ _ _ Hadopt).
  - rewrite (normalize_extracts _ _ Hadopt). cbn [fst]. now rewrite toStr_or_text.
Qed.

Lemma isChatPair_shape x :
  isChatPair x = true -> exists u a, x = chatPair u a.
Proof.
  destruct x as [ | | | | |items| ]; try discriminate.
  destruct items as [|[ | | | |u| | ] [|[ | | | |a| | ] [|]]]; try discriminate.
  intros _. now exists u, a.
Qed.

(** On a history of well-formed pairs, line 123 reads the assistant text of
    the last pair. *)
Lemma replyOfHistory_pairs h :
  forallb isChatPair h = true ->
  replyOfHistory h = Returned (VStr (lastAssistantText h)).
Proof.
  destruct h as [|p h] using rev_ind; [reflexivity|].
  clear IHh. rewrite forallb_app. cbn [forallb]. rewrite andb_true_r.
  intros [_ Hp]%andb_prop.
  destruct (isChatPair_shape p Hp) as (u & a & ->).
  unfold lastAssistantText. rewrite rev_unit. cbn [assistantText chatPair].
  replace (replyOfHistory (h ++ [chatPair u a])) with (lastPairReply (h ++ [chatPair u a]))
    by (destruct h; reflexivity).
  unfold lastPairReply. now rewrite last_last.
Qed.

(** C3 (amended). When the remote result holds an array [h] in the state
    slot [result.data[2]], or the state slot is no array and the chatbot
    slot [result.data[1]] holds the array [h], the agent's history after the
    exchange is exactly [h]; and when [h] is a list of [userText,
    assistantText] pairs and the chat backend answers, the text written
    into the placeholder is the assistant text of the last pair of [h], the
    empty string when [h] is empty. *)
Theorem adopted_history_replaces (w : World) (e : Event) (m : Message) (s : Sys)
        (result : value) (h : list value) :
  message e = Some m ->
  truthy (ai_generated m) = false ->
  remoteResult w m s = Returned result ->
  stateHistory result = VArr h \/
    (isArray (stateHistory result) = false /\ chatbotHistory result = VArr h) ->
  history (agent (snd (handleMessage w e s))) = h /\
  (chatBackendAccepts w ->
   forallb isChatPair h = true ->
   exists cm,
     channel_sendMessage w (chatLog s) = Returned cm /\
     chatLog (snd (handleMessage w e s)) =
       (chatLog s ++ successCalls cm (lastAssistantText h))%list).
Proof.
  intros Hm Hai Hres Hslot.
  assert (Hadopt : adoptedHistory result = Some h).
  { unfold adoptedHistory. destruct Hslot as [-> | [Hno ->]]; [reflexivity|].
    destruct (stateHistory result); try reflexivity; discriminate. }
  split.
  - now rewrite (handleMessage_history w e m s result Hm Hai Hres), Hadopt.
  - intros Hw Hpairs.
    destruct (handleMessage_published w e m s result Hw Hm Hai Hres) as (cm & Hcm & Hlog).
    exists cm. split; [exact Hcm|].
    rewrite Hlog, Hadopt. unfold callsForHistory.
    now rewrite (replyOfHistory_pairs h Hpairs), toStr_or_text.
Qed.

Lemma adopted_history_replaces_witness :
  history (agent (snd (handleMessage
     (scripted demoEnv [inTime (gradioResult (VStr "") (VArr [chatPair "hi" "hello"]))])
     (inbound (userSays "hi" [])) (freshSys activeAgent)))) = [chatPair "hi" "hello"] /\
  chatLog (snd (handleMessage
     (scripted demoEnv [inTime (gradioResult (VStr "") (VArr [chatPair "hi" "hello"]))])
     (inbound (userSays "hi" [])) (freshSys activeAgent))) = successCalls placeholder "hello".
Proof.
  destruct (adopted_history_replaces
              (scripted demoEnv [inTime (gradioResult (VStr "") (VArr [chatPair "hi" "hello"]))])
              (inbound (userSays "hi" [])) (userSays "hi" []) (freshSys activeAgent)
              (gradioResult (VStr "") (VArr [chatPair "hi" "hello"]))
              [chatPair "hi" "hello"]
              eq_refl eq_refl eq_refl (or_introl eq_refl))
    as (Hh & Htext).
  split; [exact Hh|].
  destruct (Htext (scripted_accepts _ _) eq_refl) as (cm & Hcm & Hlog).
  injection Hcm as <-. exact Hlog.
Defined.

(** C3, as worded, fails: a history in a recognised slot is not always the
    one stored.  With [[["q","a"]]] in the chatbot slot and an empty array in
    the state slot, the stored history is empty and the text written is
    empty, not ["a"]. *)
Lemma chatbot_slot_history_counterexample :
  let h := [chatPair "q" "a"] in
  let result := gradioResult (VArr h) (VArr []) in
  let w := scripted demoEnv [inTime result] in
  let s' := snd (handleMessage w (inbound (userSays "q" [])) (freshSys activeAgent)) in
  remoteResult w (userSays "q" []) (freshSys activeAgent) = Returned result /\
  chatbotHistory result = VArr h /\
  history (agent s') <> h /\
  chatLog s' <> successCalls placeholder (lastAssistantText h) /\
  history (agent s') = [] /\
  chatLog s' = successCalls placeholder "".
Proof.
  cbv zeta. repeat split; try reflexivity; vm_compute; discriminate.
Qed.

(** C10. When the state slot [result.data[2]] is an array it becomes the
    history, whatever the chatbot slot [result.data[1]] holds; the chatbot
    slot becomes the history when it is an array and the state slot is
    not.  The text published is then read off the adopted slot alone. *)
Theorem state_slot_takes_precedence (w : World) (e : Event) (m : Message) (s : Sys)
        (result : value) :
  message e = Some m ->
  truthy (ai_generated m) = false ->
  remoteResult w m s = Returned result ->
  (forall stateSlot,
     stateHistory result = VArr stateSlot ->
     history (agent (snd (handleMessage w e s))) = stateSlot /\
     adoptedHistory result = Some stateSlot) /\
  (forall chatbotSlot,
     chatbotHistory result = VArr chatbotSlot ->
     isArray (stateHistory result) = false ->
     history (agent (snd (handleMessage w e s))) = chatbotSlot /\
     adoptedHistory result = Some chatbotSlot) /\
  (chatBackendAccepts w ->
   forall adopted,
     adoptedHistory result = Some adopted ->
     exists cm,
       channel_sendMessage w (chatLog s) = Returned cm /\
       chatLog (snd (handleMessage w e s)) = (chatLog s ++ callsForHistory w cm adopted)%list).
Proof.
  intros Hm Hai Hres.
  pose proof (handleMessage_history w e m s result Hm Hai Hres) as Hh.
  split; [|split].
  - intros h2 H2.
    assert (Hadopt : adoptedHistory result = Some h2)
      by (unfold adoptedHistory; now rewrite H2).
    now rewrite Hh, Hadopt.
  - intros h1 H1 Hno.
    assert (Hadopt : adoptedHistory result = Some h1).
    { unfold adoptedHistory. rewrite H1.
      destruct (stateHistory result); try reflexivity; discriminate. }
    now rewrite Hh, Hadopt.
  - intros Hw adopted Hadopt.
    destruct (handleMessage_published w e m s result Hw Hm Hai Hres) as (cm & Hcm & Hlog).
    exists cm. split; [exact Hcm|]. now rewrite Hlog, Hadopt.
Qed.

Lemma state_slot_takes_precedence_witness :
  let result := gradioResult (VArr [chatPair "q" "from chatbot"]) (VArr [chatPair "q" "from state"]) in
  let w := scripted demoEnv [inTime result] in
  let s' := snd (handleMessage w (inbound (userSays "q" [])) (freshSys activeAgent)) in
  history (agent s') = [chatPair "q" "from state"] /\
  chatLog s' = successCalls placeholder "from state".
Proof.
  cbv zeta.
  destruct (state_slot_takes_precedence
              (scripted demoEnv
                 [inTime (gradioResult (VArr [chatPair "q" "from chatbot"])
                                       (VArr [chatPair "q" "from state"]))])
              (inbound (userSays "q" [])) (userSays "q" []) (freshSys activeAgent)
              (gradioResult (VArr [chatPair "q" "from chatbot"]) (VArr [chatPair "q" "from state"]))
              eq_refl eq_refl eq_refl)
    as (Hstate & _ & Hcalls).
  split; [exact (proj1 (Hstate [chatPair "q" "from state"] eq_refl))|].
  destruct (Hcalls (scripted_accepts _ _) [chatPair "q" "from state"] eq_refl)
    as (cm & Hcm & Hlog).
  injection Hcm as <-. exact Hlog.
Defined.

(** C4 (amended). When neither history slot of the result is an array, the
    text written into the placeholder is extracted from [result.data] (from
    [result] itself when it has no [data]): the text pieces met depth
    first, the empty ones dropped, joined by line feeds.  A string is a
    piece; [null], [undefined], [false] and [0] give none; any other number
    or boolean gives its [String(..)] form; an object gives the first
    string among [response], [text], [output] when it is not empty, else the
    pieces of its [data] array, else its [String(..)] form.  For
    [{data: ["", {response: "hello"}, "world"]}] the text is
    ["hello\nworld"]. *)
Theorem reply_is_extracted_text :
  (forall data, parseText data = join newline (filter nonEmpty (textPieces data)))
  /\
  (forall (w : World) (e : Event) (m : Message) (s : Sys) (result : value),
     chatBackendAccepts w ->
     message e = Some m ->
     truthy (ai_generated m) = false ->
     remoteResult w m s = Returned result ->
     isArray (stateHistory result) = false ->
     isArray (chatbotHistory result) = false ->
     exists cm,
       channel_sendMessage w (chatLog s) = Returned cm /\
       chatLog (snd (handleMessage w e s)) =
         (chatLog s ++
          successCalls cm
            (join newline
               (filter nonEmpty (textPieces (nullish (optProp result "data") result)))))%list)
  /\
  (adoptedHistory nestedResult = None /\
   textPieces (nullish (optProp nestedResult "data") nestedResult) = [""; "hello"; "world"] /\
   parseText (nullish (optProp nestedResult "data") nestedResult)
   = "hello" ++ newline ++ "world").
Proof.
  split; [exact parseText_pieces|]. split; [|repeat split; reflexivity].
  intros w e m s result Hw Hm Hai Hres H2 H1.
  assert (Hnone : adoptedHistory result = None) by (apply adoptedHistory_none; now split).
  destruct (handleMessage_published w e m s result Hw Hm Hai Hres) as (cm & Hcm & Hlog).
  exists cm. split; [exact Hcm|].
  rewrite Hlog, Hnone, parseText_pieces. reflexivity.
Qed.

Lemma reply_is_extracted_text_witness :
  exists cm,
    channel_sendMessage (scripted demoEnv [inTime nestedResult]) [] = Returned cm /\
    chatLog (snd (handleMessage (scripted demoEnv [inTime nestedResult])
                    (inbound (userSays "hi" [])) (freshSys activeAgent))) =
      ([] ++ successCalls cm ("hello" ++ newline ++ "world"))%list.
Proof.
  exact (proj1 (proj2 reply_is_extracted_text)
           (scripted demoEnv [inTime nestedResult])
           (inbound (userSays "hi" [])) (userSays "hi" []) (freshSys activeAgent) nestedResult
           (scripted_accepts _ _) eq_refl eq_refl eq_refl eq_refl eq_refl).
Defined.

(** C4, as worded, fails: a leaf that is not a string is not always
    skipped.  For [{data: [true, "a"]}] the text written is ["true\na"],
    where skipping the non-string leaf would give ["a"]. *)
Lemma non_string_leaf_counterexample :
  let result := VObj [("data", VArr [VBool true; VStr "a"])] in
  let w := scripted demoEnv [inTime result] in
  let s' := snd (handleMessage w (inbound (userSays "hi" [])) (freshSys activeAgent)) in
  remoteResult w (userSays "hi" []) (freshSys activeAgent) = Returned result /\
  adoptedHistory result = None /\
  extractStrings (nullish (optProp result "data") result) = "a" /\
  chatLog s' <> successCalls placeholder (extractStrings (nullish (optProp result "data") result)) /\
  chatLog s' = successCalls placeholder ("true" ++ newline ++ "a").
Proof.
  cbv zeta. repeat split; try reflexivity. vm_compute. discriminate.
Qed.

(** C8 (amended). When the remote result has no array in either history
    slot, the agent's history after the exchange is the history before it:
    nothing is appended. *)
Theorem history_kept_without_remote_state (w : World) (e : Event) (m : Message) (s : Sys)
        (result : value) :
  message e = Some m ->
  remoteResult w m s = Returned result ->
  isArray (stateHistory result) = false ->
  isArray (chatbotHistory result) = false ->
  history (agent (snd (handleMessage w e s))) = history (agent s).
Proof.
  intros Hm Hres H2 H1.
  assert (Hnone : adoptedHistory result = None) by (apply adoptedHistory_none; now split).
  destruct (truthy (ai_generated m)) eqn:Hai.
  - now rewrite (handleMessage_ignores_ai_generated_run w e m s Hm Hai).
  - now rewrite (handleMessage_history w e m s result Hm Hai Hres), Hnone.
Qed.

Lemma history_kept_without_remote_state_witness :
  history (agent (snd (handleMessage (scripted demoEnv [inTime (VStr "hello")])
                         (inbound (userSays "hi" [])) (freshSys activeAgent))))
  = history (agent (freshSys activeAgent)).
Proof.
  exact (history_kept_without_remote_state
           (scripted demoEnv [inTime (VStr "hello")])
           (inbound (userSays "hi" [])) (userSays "hi" []) (freshSys activeAgent) (VStr "hello")
           eq_refl eq_refl eq_refl eq_refl).
Defined.

(** C8, as worded, fails: after an exchange that succeeds on the plain
    result ["hello"], the history is still empty; the pair
    [["hi", "hello"]] was not appended. *)
Lemma no_local_append_counterexample :
  let w := scripted demoEnv [inTime (VStr "hello")] in
  let s' := snd (handleMessage w (inbound (userSays "hi" [])) (freshSys activeAgent)) in
  remoteResult w (userSays "hi" []) (freshSys activeAgent) = Returned (VStr "hello") /\
  chatLog s' = successCalls placeholder "hello" /\
  history (agent s') = [] /\
  last (history (agent s')) VUndef <> chatPair "hi" "hello".
Proof.
  cbv zeta. repeat split; try reflexivity. vm_compute. discriminate.
Qed.

(** *** The remote call *)

(** Once [prepare] has built the message, the rest of [computeReply] is the
    race of [tryPredict] against the timer, then the normalisation. *)
Lemma computeReply_prepared (w : World) (m : Message) (s0 : Sys) (um : UserMessage) (s1 : Sys) :
  prepare w m s0 = (Returned um, s1) ->
  computeReply w m s0 =
    match withTimeout (timer_wins_tie w) (fst (tryPredict w um s1)) 45000 with
    | Returned result => normalize result (snd (tryPredict w um s1))
    | Threw err => (Threw err, snd (tryPredict w um s1))
    end.
Proof.
  intros Hprep. unfold computeReply, callRemote, bind. rewrite Hprep.
  unfold awaitPredict. destruct (tryPredict w um s1) as [p s2]. cbn [fst snd].
  destruct (withTimeout _ p _); reflexivity.
Qed.

(** The remote calls of an exchange whose prologue went through and whose
    message was prepared: those of [tryPredict]. *)
Lemma handleMessage_predicts (w : World) (e : Event) (m : Message) (s : Sys)
      (cm : ChannelMessage) (um : UserMessage) (s1 : Sys) :
  message e = Some m ->
  truthy (ai_generated m) = false ->
  fst (prologue w s) = Returned cm ->
  prepared w m s = (Returned um, s1) ->
  remoteLog (snd (handleMessage w e s)) = remoteLog (snd (tryPredict w um s1)).
Proof.
  intros Hm Hai Hpro Hprep. unfold prepared in Hprep.
  generalize (handleMessage_state w e m s Hm Hai). cbv zeta. rewrite Hpro. intros (_ & ->).
  rewrite (computeReply_prepared w m _ um s1 Hprep).
  destruct (withTimeout _ _ _) as [result|err]; [|reflexivity].
  now destruct (normalize_frame result (snd (tryPredict w um s1))) as (-> & _).
Qed.

(** C6 (amended). In an exchange that gets as far as the remote call, the
    first predict call carries the object [{message_dict: userMessage}].
    If that call resolves or stays pending, it is the only predict call of
    the exchange; if it rejects, exactly one more follows, with the
    argument array [[userMessage, history]], and when that one rejects too
    within the bound, its error is what the failure path reports. *)
Theorem predict_call_strategy (w : World) (e : Event) (m : Message) (s : Sys)
        (cm : ChannelMessage) (um : UserMessage) (s1 : Sys) (c : GradioClient) :
  message e = Some m ->
  truthy (ai_generated m) = false ->
  fst (prologue w s) = Returned cm ->
  prepared w m s = (Returned um, s1) ->
  gradioClient (agent s1) = Some c ->
  let primary := predict c (apiName w) (PayloadObject [("message_dict", um)]) in
  let fallback := predict c (apiName w) (PayloadArgs um (history (agent s))) in
  match client_predict w (remoteLog s1) c (apiName w) (PayloadObject [("message_dict", um)]) with
  | SettlesAfter t (Threw _) =>
      remoteLog (snd (handleMessage w e s)) = (remoteLog s1 ++ [primary; fallback])%list /\
      (forall t' err,
         client_predict w (remoteLog s1 ++ [primary]) c (apiName w)
           (PayloadArgs um (history (agent s))) = SettlesAfter t' (Threw err) ->
         (t + t' < 45000)%N ->
         fst (computeReply w m (afterPrologue w s)) = Threw err /\
         (chatBackendAccepts w ->
          chatLog (snd (handleMessage w e s)) =
            (chatLog s ++ failureCalls cm (errorText w err))%list))
  | _ => remoteLog (snd (handleMessage w e s)) = (remoteLog s1 ++ [primary])%list
  end.
Proof.
  intros Hm Hai Hpro Hprep Hc primary fallback.
  assert (Hhist : history (agent s1) = history (agent s)).
  { destruct (prepare_frame w m (afterPrologue w s)) as (_ & Hh & _).
    unfold prepared in Hprep. rewrite Hprep in Hh. cbn [snd] in Hh.
    rewrite Hh. apply afterPrologue_frame. }
  pose proof (handleMessage_predicts w e m s cm um s1 Hm Hai Hpro Hprep) as Hlogs.
  pose proof (computeReply_prepared w m (afterPrologue w s) um s1 Hprep) as Hcomp.
  pose proof (tryPredict_calls w um s1 c Hc) as Htry.
  cbv zeta in Htry. rewrite Hhist in Htry. fold primary fallback in Htry.
  destruct (client_predict w (remoteLog s1) c (apiName w) (PayloadObject [("message_dict", um)]))
    as [t [v|err0]|] eqn:Efirst.
  - now rewrite Hlogs, Htry.
  - split; [now rewrite Hlogs, Htry|].
    intros t' err Hsecond Hbound. rewrite Hsecond in Htry.
    assert (Hthrow : fst (computeReply w m (afterPrologue w s)) = Threw err).
    { rewrite Hcomp, Htry. cbn [fst]. unfold withTimeout.
      apply N.ltb_lt in Hbound. now rewrite Hbound. }
    split; [exact Hthrow|]. intros Hw.
    destruct (handleMessage_chatLog w e m s Hw Hm Hai) as (cm' & Hcm' & _ & Hlog).
    assert (cm' = cm) as ->.
    { destruct (prologue_run w s Hw) as (cm2 & Hcm2 & Hrun).
      rewrite Hrun in Hpro. cbn [fst] in Hpro. congruence. }
    now rewrite Hlog, Hthrow.
  - now rewrite Hlogs, Htry.
Qed.

Lemma predict_call_strategy_witness :
  let w := scripted demoEnv [rejects "bad signature"; rejects "still bad"] in
  let um := {| um_text := Some "hi"; files := [] |} in
  let s' := snd (handleMessage w (inbound (userSays "hi" [])) (freshSys activeAgent)) in
  remoteLog s' =
    [predict (ClientHandle 0) "/chat" (PayloadObject [("message_dict", um)]);
     predict (ClientHandle 0) "/chat" (PayloadArgs um [])] /\
  chatLog s' =
    failureCalls placeholder
      "still bad - Gradio call failed (baseUrl=https://demo.gradio.live, apiName=/chat)".
Proof.
  cbv zeta.
  pose proof (predict_call_strategy
                (scripted demoEnv [rejects "bad signature"; rejects "still bad"])
                (inbound (userSays "hi" [])) (userSays "hi" []) (freshSys activeAgent)
                placeholder
                {| um_text := Some "hi"; files := [] |}
                (afterPrologue (scripted demoEnv [rejects "bad signature"; rejects "still bad"])
                   (freshSys activeAgent))
                (ClientHandle 0)
                eq_refl eq_refl eq_refl eq_refl eq_refl) as H.
  cbv zeta in H. cbn [client_predict scripted] in H.
  destruct H as [Hlog Hretry]. split; [exact Hlog|].
  destruct (Hretry 300%N (ErrorObject "still bad") eq_refl eq_refl) as (_ & Hchat).
  exact (Hchat (scripted_accepts _ _)).
Defined.

(** C6, as worded, fails on the payload of the first call: the object sent
    has the key [message_dict], not [message]. *)
Lemma primary_payload_key_counterexample :
  let w := scripted demoEnv [inTime (VStr "ok")] in
  let um := {| um_text := Some "hi"; files := [] |} in
  let s' := snd (handleMessage w (inbound (userSays "hi" [])) (freshSys activeAgent)) in
  prepared w (userSays "hi" []) (freshSys activeAgent)
    = (Returned um, afterPrologue w (freshSys activeAgent)) /\
  remoteLog s' <> [predict (ClientHandle 0) "/chat" (describedPrimaryPayload um)] /\
  remoteLog s' = [predict (ClientHandle 0) "/chat" (PayloadObject [("message_dict", um)])].
Proof.
  cbv zeta. repeat split; try reflexivity. vm_compute. discriminate.
Qed.

(** C7. The files of every predict call of an exchange are the handles of
    the URLs resolved from the inbound message: the attachments whose type
    is [image], in attachment order, each giving the first non-empty of
    [image_url], [asset_url], [thumb_url], [og_scrape_url], and none when
    all four are empty or missing.  No predict call is made when a handle
    cannot be obtained. *)
Theorem files_are_resolved_image_urls (w : World) (e : Event) (m : Message) (s : Sys) :
  message e = Some m ->
  let atts := match attachments m with Some l => l | None => [] end in
  imageUrls atts = resolvedUrls atts /\
  exists newCalls,
    remoteLog (snd (handleMessage w e s)) = (remoteLog s ++ newCalls)%list /\
    forall c api payload,
      In (predict c api payload) newCalls ->
      exists handles,
        mapOutcome (handle_file w) (resolvedUrls atts) = Returned handles /\
        payloadMessages payload = [{| um_text := text m; files := handles |}].
Proof.
  intros Hm atts. split; [apply imageUrls_resolvedUrls|].
  assert (Hnone : remoteLog (snd (handleMessage w e s)) = remoteLog s ->
                  exists newCalls,
                    remoteLog (snd (handleMessage w e s)) = (remoteLog s ++ newCalls)%list /\
                    forall c api payload,
                      In (predict c api payload) newCalls ->
                      exists handles,
                        mapOutcome (handle_file w) (resolvedUrls atts) = Returned handles /\
                        payloadMessages payload = [{| um_text := text m; files := handles |}]).
  { intros ->. exists []. split; [now rewrite app_nil_r|]. intros c api payload []. }
  destruct (truthy (ai_generated m)) eqn:Hai.
  { apply Hnone. now rewrite (handleMessage_ignores_ai_generated_run w e m s Hm Hai). }
  generalize (handleMessage_state w e m s Hm Hai). cbv zeta.
  destruct (fst (prologue w s)) as [cm|err]; intros (_ & Hr); [|exact (Hnone Hr)].
  clear Hnone.
  destruct (computeReply_remoteLog w m (afterPrologue w s)) as (calls & Hcalls & Hcarry).
  exists calls. split.
  { rewrite Hr, Hcalls. f_equal. apply afterPrologue_frame. }
  intros c api payload Hin.
  destruct (Hcarry c api payload Hin) as (um & s1 & Hprep & Hpay).
  destruct (prepare_returns w m _ um s1 Hprep) as (_ & Htext & Hfiles).
  exists (files um). fold atts in Hfiles. rewrite <- imageUrls_resolvedUrls.
  split; [exact Hfiles|]. rewrite Hpay, <- Htext. now destruct um.
Qed.

Lemma files_are_resolved_image_urls_witness :
  resolvedUrls exampleAttachments = ["u1"; "u2"] /\
  mapOutcome (handle_file (scripted demoEnv [inTime (VStr "ok")])) ["u1"; "u2"]
    = Returned [FileData "u1"; FileData "u2"] /\
  remoteLog (snd (handleMessage (scripted demoEnv [inTime (VStr "ok")])
                    (inbound (userSays "look" exampleAttachments)) (freshSys activeAgent)))
    = [predict (ClientHandle 0) "/chat"
         (PayloadObject [("message_dict",
                          {| um_text := Some "look";
                             files := [FileData "u1"; FileData "u2"] |})])] /\
  (imageUrls exampleAttachments = resolvedUrls exampleAttachments /\
   exists newCalls,
     remoteLog (snd (handleMessage (scripted demoEnv [inTime (VStr "ok")])
                       (inbound (userSays "look" exampleAttachments)) (freshSys activeAgent)))
       = ([] ++ newCalls)%list /\
     forall c api payload,
       In (predict c api payload) newCalls ->
       exists handles,
         mapOutcome (handle_file (scripted demoEnv [inTime (VStr "ok")]))
           (resolvedUrls exampleAttachments) = Returned handles /\
         payloadMessages payload = [{| um_text := Some "look"; files := handles |}]).
Proof.
  do 3 (split; [reflexivity|]).
  exact (files_are_resolved_image_urls (scripted demoEnv [inTime (VStr "ok")])
           (inbound (userSays "look" exampleAttachments)) (userSays "look" exampleAttachments)
           (freshSys activeAgent) eq_refl).
Defined.

(** *** The bounded wait *)











(** A retry that would have resolved after the bound does not rescue the
    exchange: the first call rejects after 30 s, the retry resolves 20 s
    later, and the timeout is what is reported. *)
Remark late_retry_is_abandoned :
  let w := scripted demoEnv [SettlesAfter 30000 (Threw (ErrorObject "busy"));
                             SettlesAfter 20000 (Returned (VStr "late"))] in
  let s' := snd (handleMessage w (inbound (userSays "hi" [])) (freshSys activeAgent)) in
  chatLog s' =
    failureCalls placeholder
      "MedGemma timed out - Gradio call failed (baseUrl=https://demo.gradio.live, apiName=/chat)" /\
  List.length (filter isPredict (remoteLog s')) = 2.
Proof. cbv zeta. split; reflexivity. Qed.


(** *** Disposal *)

(** C9 (amended). [dispose] unsubscribes, closes the client if one is held,
    and disconnects the chat session.  With no client held nothing is
    closed, and whatever [close] throws is swallowed: the outcome of
    [dispose] does not depend on it.  An error of the unsubscription or of
    the disconnection is not swallowed: [dispose] raises exactly the error
    that [off] raises, else exactly what [disconnectUser] raises. *)
Theorem dispose_outcome (w : World) (s : Sys) :
  fst (dispose w s) =
    match chatClient_off w (chatLog s) with
    | Threw err => Threw err
    | Returned _ => chatClient_disconnectUser w (chatLog s ++ [off_message_new])
    end
  /\
  agent (snd (dispose w s)) = agent s
  /\
  remoteLog (snd (dispose w s)) =
    match chatClient_off w (chatLog s), gradioClient (agent s) with
    | Returned _, Some c => (remoteLog s ++ [close c])%list
    | _, _ => remoteLog s
    end.
Proof.
  unfold dispose. unfold_async. cbn.
  destruct (chatClient_off w (chatLog s)) as [[]|err]; cbn; [|now auto].
  destruct (gradioClient (agent s)) as [c|]; cbn.
  - destruct (client_close w (remoteLog s) c) as [[]|err]; cbn; auto.
  - auto.
Qed.

(** C9, as worded, fails: an error of [disconnectUser] comes out of
    [dispose], on an agent that was never initialised and on an active
    one (whose [close] throws too, and is swallowed). *)
Lemma dispose_raises_counterexample :
  let w := stuckSession demoEnv in
  fst (dispose w (freshSys (newAgent 0))) = Threw (ErrorObject "WS connection closed") /\
  fst (dispose w (freshSys (newAgent 0))) <> Returned tt /\
  fst (dispose w (freshSys activeAgent)) = Threw (ErrorObject "WS connection closed") /\
  remoteLog (snd (dispose w (freshSys activeAgent))) = [close (ClientHandle 0)].
Proof.
  cbv zeta. repeat split; try reflexivity; vm_compute; discriminate.
Qed.

(* ------------------------------------------------------------------ *)
(** ** More about the agent: what the life cycle keeps *)

Import Lifecycle Faults.

(** *** Lines 60-82, step by step *)

Lemma prepare_cases (w : World) (m : Message) (s : Sys) :
  prepare w m s =
    match import_gradio_client w with
    | Threw err => (Threw err, s)
    | Returned _ =>
        match gradioClient (agent s) with
        | Some _ => (messageOutcome w m, s)
        | None =>
            match Client_connect w (remoteLog s) (GRADIO_BASE_URL (env w)) with
            | Threw err => (Threw err, logRemote s [connect (GRADIO_BASE_URL (env w))])
            | Returned c =>
                (messageOutcome w m,
                 withAgent (logRemote s [connect (GRADIO_BASE_URL (env w))])
                   {| lastInteractionTs := lastInteractionTs (agent s);
                      history := history (agent s);
                      gradioClient := Some c |})
            end
        end
    end.
Proof.
  unfold prepare, ensureClient, messageOutcome, attachmentsOf, builtMessage. unfold_async. cbn.
  destruct (import_gradio_client w); cbn; [|reflexivity].
  destruct (gradioClient (agent s)); cbn.
  - destruct (mapOutcome _ _); reflexivity.
  - destruct (Client_connect w _ _); cbn; [|reflexivity].
    destruct (mapOutcome _ _); reflexivity.
Qed.

(** What [prepare] does to the client and to the remote log, whatever its
    outcome. *)
Lemma prepare_client (w : World) (m : Message) (s : Sys) :
  import_gradio_client w = Returned tt ->
  gradioClient (agent (snd (prepare w m s))) = clientAfterConnect w s /\
  remoteLog (snd (prepare w m s)) = remoteLogAfterConnect w s.
Proof.
  intros Himp. rewrite prepare_cases, Himp.
  unfold clientAfterConnect, remoteLogAfterConnect.
  destruct (gradioClient (agent s)) as [c|] eqn:Ec; cbn; [rewrite ?Ec; now split|].
  destruct (Client_connect w _ _); cbn; auto.
Qed.

Lemma afterPrologue_agent (w : World) (s : Sys) :
  agent (afterPrologue w s) = stamp w (agent s).
Proof. unfold afterPrologue. now destruct (prologue_frame w s). Qed.

Lemma clientAfterConnect_afterPrologue (w : World) (s : Sys) :
  clientAfterConnect w (afterPrologue w s) = clientAfterConnect w s /\
  remoteLogAfterConnect w (afterPrologue w s) = remoteLogAfterConnect w s.
Proof.
  unfold clientAfterConnect, remoteLogAfterConnect.
  rewrite afterPrologue_agent. destruct (afterPrologue_frame w s) as (_ & ->).
  cbn. split; reflexivity.
Qed.

(** When the module loads, a client is held by line 66 and every handle is
    made, [prepare] hands [tryPredict] the built message in [readyState]. *)
Lemma prepared_ready (w : World) (m : Message) (s : Sys) (c : GradioClient)
      (handles : list FileHandle) :
  import_gradio_client w = Returned tt ->
  clientAfterConnect w s = Some c ->
  mapOutcome (handle_file w) (imageUrls (attachmentsOf m)) = Returned handles ->
  prepared w m s = (Returned (builtMessage m handles), readyState w s c).
Proof.
  intros Himp Hc Hfiles.
  unfold prepared, readyState, remoteLogAfterConnect, clientAfterConnect in *.
  pose proof (afterPrologue_agent w s) as Ha.
  destruct (afterPrologue_frame w s) as (_ & Hr).
  destruct (afterPrologue w s) as [a0 chat0 remote0]. cbn [agent remoteLog chatLog] in *.
  subst a0 remote0.
  rewrite prepare_cases, Himp. unfold messageOutcome. rewrite Hfiles.
  unfold stamp. cbn [agent remoteLog gradioClient history lastInteractionTs].
  destruct (gradioClient (agent s)) as [c0|].
  - injection Hc as ->. reflexivity.
  - destruct (Client_connect w (remoteLog s) _) as [c1|]; [|discriminate].
    injection Hc as ->. reflexivity.
Qed.

Lemma carries_not_connect (um : UserMessage) (calls : list RemoteCall) :
  Forall (carries um) calls ->
  filter isConnect calls = [] /\ filter isClose calls = [].
Proof.
  induction 1 as [|call calls Hcall _ [IH1 IH2]]; [now split|].
  destruct call; cbn in *; try contradiction. now split.
Qed.

(** After [prepare], the rest of the [try] block's computation keeps the
    client and the time stamp, and adds no connect call. *)
Lemma computeReply_after_prepare (w : World) (m : Message) (s0 : Sys) :
  gradioClient (agent (snd (computeReply w m s0)))
    = gradioClient (agent (snd (prepare w m s0))) /\
  lastInteractionTs (agent (snd (computeReply w m s0))) = lastInteractionTs (agent s0) /\
  exists calls,
    remoteLog (snd (computeReply w m s0))
      = (remoteLog (snd (prepare w m s0)) ++ calls)%list /\
    filter isConnect calls = [] /\
    filter isPredict calls = calls.
Proof.
  destruct (prepare_frame w m s0) as (_ & _ & Hts & _).
  unfold computeReply, callRemote, bind.
  destruct (prepare w m s0) as [[um|err] s1]; cbn [snd] in *.
  - unfold awaitPredict.
    destruct (tryPredict_frame w um s1) as (Ha & _).
    destruct (tryPredict_remoteLog w um s1) as (calls & Hcalls & Hcarry).
    destruct (tryPredict w um s1) as [p s2]. cbn [snd] in *.
    assert (Hpred : filter isPredict calls = calls).
    { clear Hcalls. induction Hcarry as [|call calls Hcall _ IH]; [reflexivity|].
      destruct call; cbn in *; try contradiction. now rewrite IH. }
    destruct (withTimeout _ p _) as [result|err]; cbn [fst snd].
    + destruct (normalize_frame result s2) as (Hr & Hc & Ht).
      rewrite Hc, Ht, Hr, Ha, Hts, Hcalls.
      repeat split. exists calls. repeat split; auto.
      now destruct (carries_not_connect um calls Hcarry).
    + rewrite Ha, Hts, Hcalls. repeat split. exists calls. repeat split; auto.
      now destruct (carries_not_connect um calls Hcarry).
  - repeat split; [exact Hts|]. exists []. now rewrite app_nil_r.
Qed.

(** X1. [getLastInteraction] after an event: the clock at handling time for
    every message that is not machine-generated, whatever the chat backend
    and the endpoint answer; the old value for a machine-generated message
    and for an event without a message. *)
Theorem lastInteraction_is_stamped (w : World) (e : Event) (s : Sys) :
  getLastInteraction (agent (snd (handleMessage w e s))) =
    match message e with
    | Some m =>
        if truthy (ai_generated m) then getLastInteraction (agent s) else Date_now w
    | None => getLastInteraction (agent s)
    end.
Proof.
  unfold getLastInteraction.
  destruct (message e) as [m|] eqn:Hm; [|unfold handleMessage; now rewrite Hm].
  destruct (truthy (ai_generated m)) eqn:Hai.
  - now rewrite (handleMessage_ignores_ai_generated_run w e m s Hm Hai).
  - generalize (handleMessage_state w e m s Hm Hai). cbv zeta.
    destruct (fst (prologue w s)); intros (-> & _); [|reflexivity].
    destruct (computeReply_after_prepare w m (afterPrologue w s)) as (_ & -> & _).
    now rewrite afterPrologue_agent.
Qed.

(** X2. When the placeholder cannot be created, or the thinking indicator
    cannot be shown, the error is not caught: the handler rejects with it,
    nothing is asked of the endpoint, the history is untouched, and no text
    is written and no clear event sent. *)
Theorem placeholder_failure_escapes (w : World) (e : Event) (m : Message) (s : Sys)
        (err : thrown) :
  message e = Some m ->
  truthy (ai_generated m) = false ->
  channel_sendMessage w (chatLog s) = Threw err \/
    (exists cm,
       channel_sendMessage w (chatLog s) = Returned cm /\
       channel_sendEvent w (chatLog s ++ [sendMessage "" true])
         (ai_indicator_update AI_STATE_THINKING (cid cm) (id cm)) = Threw err) ->
  fst (handleMessage w e s) = Threw err /\
  remoteLog (snd (handleMessage w e s)) = remoteLog s /\
  history (agent (snd (handleMessage w e s))) = history (agent s) /\
  gradioClient (agent (snd (handleMessage w e s))) = gradioClient (agent s) /\
  exists calls,
    chatLog (snd (handleMessage w e s)) = (chatLog s ++ calls)%list /\
    filter isTextMutation calls = [] /\
    filter isClear calls = [].
Proof.
  intros Hm Hai Hfail.
  rewrite (handleMessage_eq w e m s Hm Hai).
  unfold bind, prologue. unfold_async. cbn.
  destruct Hfail as [Hmsg | (cm & Hmsg & Hev)]; rewrite Hmsg; cbn.
  - repeat split. exists [sendMessage "" true]. now repeat split.
  - rewrite Hev. cbn. repeat split.
    exists [sendMessage "" true; thinking cm]. rewrite <- app_assoc. now repeat split.
Qed.

Lemma placeholder_failure_escapes_witness :
  handleMessage (chatDown [inTime (VStr "never asked")]) (inbound (userSays "hi" []))
    (freshSys activeAgent)
  = (Threw (ErrorObject "StreamChat error code 16"),
     {| agent := stamp (chatDown []) activeAgent;
        chatLog := [sendMessage "" true];
        remoteLog := [] |}) /\
  fst (handleMessage (chatDown [inTime (VStr "never asked")]) (inbound (userSays "hi" []))
         (freshSys activeAgent))
  = Threw (ErrorObject "StreamChat error code 16").
Proof.
  split; [reflexivity|].
  exact (proj1 (placeholder_failure_escapes
                  (chatDown [inTime (VStr "never asked")]) (inbound (userSays "hi" []))
                  (userSays "hi" []) (freshSys activeAgent)
                  (ErrorObject "StreamChat error code 16")
                  eq_refl eq_refl (or_introl eq_refl))).
Defined.

(** X3. A client, once held, stays: whatever the event and whatever the
    collaborators answer (a timeout, a rejected call, a rejected write),
    [handleMessage] leaves the same client in the agent and makes no
    connect call. *)
Theorem client_is_kept (w : World) (e : Event) (s : Sys) (c : GradioClient) :
  gradioClient (agent s) = Some c ->
  gradioClient (agent (snd (handleMessage w e s))) = Some c /\
  exists calls,
    remoteLog (snd (handleMessage w e s)) = (remoteLog s ++ calls)%list /\
    filter isConnect calls = [] /\
    filter isClose calls = [].
Proof.
  intros Hc.
  assert (Hidle : handleMessage w e s = (Returned tt, s) ->
                  gradioClient (agent (snd (handleMessage w e s))) = Some c /\
                  exists calls,
                    remoteLog (snd (handleMessage w e s)) = (remoteLog s ++ calls)%list /\
                    filter isConnect calls = [] /\ filter isClose calls = []).
  { intros ->. split; [exact Hc|]. exists []. now rewrite app_nil_r. }
  destruct (message e) as [m|] eqn:Hm; [|apply Hidle; unfold handleMessage; now rewrite Hm].
  destruct (truthy (ai_generated m)) eqn:Hai;
    [apply Hidle, (handleMessage_ignores_ai_generated_run w e m s Hm Hai)|].
  clear Hidle.
  generalize (handleMessage_state w e m s Hm Hai). cbv zeta.
  destruct (fst (prologue w s)); intros (-> & ->).
  - destruct (computeReply_after_prepare w m (afterPrologue w s))
      as (-> & _ & calls & -> & Hconn & Hpred).
    assert (Hheld : gradioClient (agent (afterPrologue w s)) = Some c)
      by (rewrite afterPrologue_agent; exact Hc).
    assert (Hsame : snd (prepare w m (afterPrologue w s)) = afterPrologue w s).
    { rewrite prepare_cases, Hheld. now destruct (import_gradio_client w). }
    rewrite Hsame, Hheld. split; [reflexivity|].
    exists calls. destruct (afterPrologue_frame w s) as (_ & ->).
    repeat split; [exact Hconn|].
    rewrite <- Hpred. clear. induction calls as [|[] calls IH]; cbn; auto.
  - split; [exact Hc|]. exists []. now rewrite app_nil_r.
Qed.

Lemma client_is_kept_witness :
  gradioClient (agent (snd (handleMessage (offline [NeverSettles])
                              (inbound (userSays "hi" [])) (freshSys activeAgent))))
  = Some (ClientHandle 0) /\
  exists calls,
    remoteLog (snd (handleMessage (offline [NeverSettles])
                      (inbound (userSays "hi" [])) (freshSys activeAgent)))
    = ([] ++ calls)%list /\
    filter isConnect calls = [] /\
    filter isClose calls = [].
Proof.
  exact (client_is_kept (offline [NeverSettles]) (inbound (userSays "hi" []))
           (freshSys activeAgent) (ClientHandle 0) eq_refl).
Defined.

(** X4. An agent that holds no client connects when a message arrives:
    once the placeholder is up and the client module is loaded, exactly one
    connect call is made, with the configured base (also when none is
    configured), and the client it returns is the one the agent holds
    afterwards, whatever becomes of the exchange; when the connect is
    rejected the agent still holds none. *)
Theorem lazy_connect (w : World) (e : Event) (m : Message) (s : Sys) (cm : ChannelMessage) :
  message e = Some m ->
  truthy (ai_generated m) = false ->
  fst (prologue w s) = Returned cm ->
  import_gradio_client w = Returned tt ->
  gradioClient (agent s) = None ->
  gradioClient (agent (snd (handleMessage w e s))) =
    match Client_connect w (remoteLog s) (GRADIO_BASE_URL (env w)) with
    | Returned c => Some c
    | Threw _ => None
    end /\
  exists calls,
    remoteLog (snd (handleMessage w e s)) = (remoteLog s ++ calls)%list /\
    filter isConnect calls = [connect (GRADIO_BASE_URL (env w))] /\
    hd_error calls = Some (connect (GRADIO_BASE_URL (env w))).
Proof.
  intros Hm Hai Hpro Himp Hnone.
  generalize (handleMessage_state w e m s Hm Hai). cbv zeta. rewrite Hpro. intros (-> & ->).
  destruct (computeReply_after_prepare w m (afterPrologue w s))
    as (-> & _ & calls & -> & Hconn & _).
  destruct (prepare_client w m (afterPrologue w s) Himp) as (-> & ->).
  destruct (clientAfterConnect_afterPrologue w s) as (-> & ->).
  unfold clientAfterConnect, remoteLogAfterConnect. rewrite Hnone.
  split; [reflexivity|].
  exists (connect (GRADIO_BASE_URL (env w)) :: calls).
  split; [now rewrite <- app_assoc|]. cbn. now rewrite Hconn.
Qed.

Lemma lazy_connect_witness :
  gradioClient (agent (snd (handleMessage (scripted demoEnv [inTime (VStr "ok")])
                              (inbound (userSays "hi" [])) (freshSys (newAgent 0)))))
  = Some (ClientHandle 0) /\
  remoteLog (snd (handleMessage (scripted demoEnv [inTime (VStr "ok")])
                    (inbound (userSays "hi" [])) (freshSys (newAgent 0))))
  = [connect (Some "https://demo.gradio.live");
     predict (ClientHandle 0) "/chat"
       (PayloadObject [("message_dict", {| um_text := Some "hi"; files := [] |})])] /\
  gradioClient (agent (snd (handleMessage (scripted demoEnv [inTime (VStr "ok")])
                              (inbound (userSays "hi" [])) (freshSys (newAgent 0)))))
  = match Client_connect (scripted demoEnv [inTime (VStr "ok")]) []
            (Some "https://demo.gradio.live") with
    | Returned c => Some c
    | Threw _ => None
    end.
Proof.
  do 2 (split; [reflexivity|]).
  exact (proj1 (lazy_connect (scripted demoEnv [inTime (VStr "ok")])
                  (inbound (userSays "hi" [])) (userSays "hi" [])
                  (freshSys (newAgent 0)) placeholder
                  eq_refl eq_refl eq_refl eq_refl eq_refl)).
Defined.

(** *** Failures before the remote call *)

Lemma preparationFails_prepare (w : World) (m : Message) (s : Sys) (err : thrown) :
  preparationFails w m s err ->
  fst (prepare w m (afterPrologue w s)) = Threw err.
Proof.
  intros Hfail. rewrite prepare_cases.
  destruct (afterPrologue_frame w s) as (_ & ->).
  rewrite afterPrologue_agent. unfold stamp. cbn [gradioClient].
  unfold messageOutcome.
  destruct Hfail as [-> | [(-> & -> & ->) | (-> & Hclient & ->)]]; try reflexivity.
  destruct (gradioClient (agent s)) as [c|]; [reflexivity|].
  destruct Hclient as [Hc | (c & ->)]; [now destruct Hc | reflexivity].
Qed.

(** X5. When the client module does not load, the lazy connect is
    rejected, or a file handle cannot be made, the exchange ends on the
    failure path with that error in the placeholder, and no predict call
    is made. *)
Theorem preparation_failure_is_reported (w : World) (e : Event) (m : Message) (s : Sys)
        (err : thrown) :
  chatBackendAccepts w ->
  message e = Some m ->
  truthy (ai_generated m) = false ->
  preparationFails w m s err ->
  exists cm,
    channel_sendMessage w (chatLog s) = Returned cm /\
    chatLog (snd (handleMessage w e s)) = (chatLog s ++ failureCalls cm (errorText w err))%list /\
    filter isPredict (remoteLog (snd (handleMessage w e s))) = filter isPredict (remoteLog s).
Proof.
  intros Hw Hm Hai Hfail.
  pose proof (preparationFails_prepare w m s err Hfail) as Hprep.
  assert (Hreply : computeReply w m (afterPrologue w s)
                   = (Threw err, snd (prepare w m (afterPrologue w s)))).
  { unfold computeReply, callRemote, bind.
    destruct (prepare w m (afterPrologue w s)) as [[um|err'] s1]; cbn in Hprep; [discriminate|].
    now injection Hprep as ->. }
  destruct (handleMessage_chatLog w e m s Hw Hm Hai) as (cm & Hcm & _ & Hlog).
  exists cm. split; [exact Hcm|]. split; [now rewrite Hlog, Hreply|].
  destruct (prologue_run w s Hw) as (cm' & _ & Hrun).
  generalize (handleMessage_state w e m s Hm Hai). cbv zeta. rewrite Hrun. cbn [fst].
  intros (_ & ->). rewrite Hreply. cbn [snd].
  destruct (prepare_frame w m (afterPrologue w s)) as (_ & _ & _ & ->).
  now destruct (afterPrologue_frame w s) as (_ & ->).
Qed.

Lemma preparation_failure_is_reported_witness :
  chatLog (snd (handleMessage (oneBadUrl [inTime (VStr "never asked")])
                  (inbound (userSays "see" [image (Some "ok") None; image (Some "gone") None]))
                  (freshSys activeAgent)))
  = failureCalls placeholder
      "Invalid URL - Gradio call failed (baseUrl=https://demo.gradio.live, apiName=/chat)" /\
  remoteLog (snd (handleMessage (oneBadUrl [inTime (VStr "never asked")])
                    (inbound (userSays "see" [image (Some "ok") None; image (Some "gone") None]))
                    (freshSys activeAgent))) = [].
Proof.
  split; [|reflexivity].
  destruct (preparation_failure_is_reported
              (oneBadUrl [inTime (VStr "never asked")])
              (inbound (userSays "see" [image (Some "ok") None; image (Some "gone") None]))
              (userSays "see" [image (Some "ok") None; image (Some "gone") None])
              (freshSys activeAgent) (ErrorObject "Invalid URL"))
    as (cm & Hcm & Hlog & _).
  - split; [intros log; now exists placeholder | split; reflexivity].
  - reflexivity.
  - reflexivity.
  - right. right. split; [reflexivity|]. split; [left; discriminate | reflexivity].
  - injection Hcm as <-. exact Hlog.
Defined.

(** *** The two attempts against the timer *)

(** The promise the timer is raced against, from the answers to the two
    attempts. *)
Lemma remoteResult_ready (w : World) (m : Message) (s : Sys) (cm : ChannelMessage)
      (c : GradioClient) (handles : list FileHandle) :
  fst (prologue w s) = Returned cm ->
  import_gradio_client w = Returned tt ->
  clientAfterConnect w s = Some c ->
  mapOutcome (handle_file w) (imageUrls (attachmentsOf m)) = Returned handles ->
  remoteResult w m s =
    withTimeout (timer_wins_tie w)
      match primaryAnswer w s c (builtMessage m handles) with
      | SettlesAfter t (Threw _) =>
          match fallbackAnswer w s c (builtMessage m handles) with
          | SettlesAfter t' r => SettlesAfter (t + t') r
          | NeverSettles => NeverSettles
          end
      | answer => answer
      end 45000.
Proof.
  intros Hpro Himp Hc Hfiles.
  unfold remoteResult. rewrite Hpro. unfold callRemote, bind.
  pose proof (prepared_ready w m s c handles Himp Hc Hfiles) as Hprep.
  unfold prepared in Hprep. rewrite Hprep.
  unfold awaitPredict.
  rewrite (tryPredict_calls w (builtMessage m handles) (readyState w s c) c eq_refl).
  unfold primaryAnswer, fallbackAnswer, primaryCall. cbn [readyState remoteLog agent history].
  destruct (client_predict w (remoteLogAfterConnect w s) c (apiName w) _) as [t [v|e1]|];
    reflexivity.
Qed.

(** X6. The attempt that resolves within the bound provides the result:
    the first one when it resolves in under 45000 ms, else the retry when
    the first rejected and both together took under 45000 ms.  The error of
    the first attempt is then dropped. *)
Theorem attempt_in_time_provides_result (w : World) (m : Message) (s : Sys)
        (cm : ChannelMessage) (c : GradioClient) (handles : list FileHandle) (v : value) :
  fst (prologue w s) = Returned cm ->
  import_gradio_client w = Returned tt ->
  clientAfterConnect w s = Some c ->
  mapOutcome (handle_file w) (imageUrls (attachmentsOf m)) = Returned handles ->
  (exists t,
     primaryAnswer w s c (builtMessage m handles) = SettlesAfter t (Returned v) /\
     (t < 45000)%N)
  \/
  (exists t firstError t',
     primaryAnswer w s c (builtMessage m handles) = SettlesAfter t (Threw firstError) /\
     fallbackAnswer w s c (builtMessage m handles) = SettlesAfter t' (Returned v) /\
     (t + t' < 45000)%N) ->
  remoteResult w m s = Returned v.
Proof.
  intros Hpro Himp Hc Hfiles Hanswer.
  rewrite (remoteResult_ready w m s cm c handles Hpro Himp Hc Hfiles).
  destruct Hanswer as [(t & -> & Ht) | (t & e1 & t' & -> & -> & Ht)];
    unfold withTimeout; apply N.ltb_lt in Ht; now rewrite Ht.
Qed.

Lemma attempt_in_time_provides_result_witness :
  remoteResult (scripted demoEnv [rejects "bad signature"; inTime (VStr "second try")])
    (userSays "hi" []) (freshSys activeAgent)
  = Returned (VStr "second try").
Proof.
  apply (attempt_in_time_provides_result
           (scripted demoEnv [rejects "bad signature"; inTime (VStr "second try")])
           (userSays "hi" []) (freshSys activeAgent) placeholder (ClientHandle 0) []
           (VStr "second try") eq_refl eq_refl eq_refl eq_refl).
  right. exists 300%N, (ErrorObject "bad signature"), 1200%N.
  repeat split; reflexivity.
Defined.

(** X7. The 45000 ms cover the two attempts together: when the first
    attempt rejects and the retry settles at a moment where both together
    have taken more than 45000 ms, the exchange gets the timeout error,
    whatever the retry brought, even if each attempt alone stayed under
    the bound. *)
Theorem bound_covers_both_attempts (w : World) (m : Message) (s : Sys)
        (cm : ChannelMessage) (c : GradioClient) (handles : list FileHandle)
        (t t' : N) (firstError : thrown) (late : outcome value) :
  fst (prologue w s) = Returned cm ->
  import_gradio_client w = Returned tt ->
  clientAfterConnect w s = Some c ->
  mapOutcome (handle_file w) (imageUrls (attachmentsOf m)) = Returned handles ->
  primaryAnswer w s c (builtMessage m handles) = SettlesAfter t (Threw firstError) ->
  fallbackAnswer w s c (builtMessage m handles) = SettlesAfter t' late ->
  (45000 < t + t')%N ->
  remoteResult w m s = Threw (ErrorObject "MedGemma timed out").
Proof.
  intros Hpro Himp Hc Hfiles H1 H2 Hlate.
  rewrite (remoteResult_ready w m s cm c handles Hpro Himp Hc Hfiles), H1, H2.
  unfold withTimeout.
  assert (Hlt : (t + t' <? 45000)%N = false) by (apply N.ltb_ge; lia).
  assert (Heq : (t + t' =? 45000)%N = false) by (apply N.eqb_neq; lia).
  now rewrite Hlt, Heq.
Qed.

Lemma bound_covers_both_attempts_witness :
  remoteResult (scripted demoEnv [SettlesAfter 30000 (Threw (ErrorObject "busy"));
                                  SettlesAfter 20000 (Returned (VStr "late"))])
    (userSays "hi" []) (freshSys activeAgent)
  = Threw (ErrorObject "MedGemma timed out").
Proof.
  apply (bound_covers_both_attempts
           (scripted demoEnv [SettlesAfter 30000 (Threw (ErrorObject "busy"));
                              SettlesAfter 20000 (Returned (VStr "late"))])
           (userSays "hi" []) (freshSys activeAgent) placeholder (ClientHandle 0) []
           30000%N 20000%N (ErrorObject "busy") (Returned (VStr "late"))
           eq_refl eq_refl eq_refl eq_refl eq_refl eq_refl).
  reflexivity.
Defined.

(** *** Edges of the normalisation *)

(** X8. A returned history whose last entry is [null] replaces the agent's
    history all the same, and the exchange then fails on reading the last
    reply: the placeholder shows the type error while the broken history
    stays stored for the next exchange. *)
Theorem broken_history_is_stored (w : World) (e : Event) (m : Message) (s : Sys)
        (result : value) (h : list value) :
  chatBackendAccepts w ->
  message e = Some m ->
  truthy (ai_generated m) = false ->
  remoteResult w m s = Returned result ->
  adoptedHistory result = Some (h ++ [VNull])%list ->
  history (agent (snd (handleMessage w e s))) = (h ++ [VNull])%list /\
  exists cm,
    channel_sendMessage w (chatLog s) = Returned cm /\
    chatLog (snd (handleMessage w e s)) =
      (chatLog s ++
       failureCalls cm (errorText w (ErrorObject (typeErrorMessage VNull "1"))))%list.
Proof.
  intros Hw Hm Hai Hres Hadopt. split.
  - now rewrite (handleMessage_history w e m s result Hm Hai Hres), Hadopt.
  - destruct (handleMessage_published w e m s result Hw Hm Hai Hres) as (cm & Hcm & Hlog).
    exists cm. split; [exact Hcm|]. rewrite Hlog, Hadopt.
    unfold callsForHistory.
    replace (replyOfHistory (h ++ [VNull])) with (lastPairReply (h ++ [VNull]))
      by (destruct h; reflexivity).
    unfold lastPairReply. now rewrite last_last.
Qed.

Lemma broken_history_is_stored_witness :
  history (agent (snd (handleMessage
     (scripted demoEnv [inTime (gradioResult VNull (VArr [chatPair "q" "a"; VNull]))])
     (inbound (userSays "hi" [])) (freshSys activeAgent))))
  = [chatPair "q" "a"; VNull] /\
  chatLog (snd (handleMessage
     (scripted demoEnv [inTime (gradioResult VNull (VArr [chatPair "q" "a"; VNull]))])
     (inbound (userSays "hi" [])) (freshSys activeAgent)))
  = failureCalls placeholder
      "Cannot read properties of null (reading '1') - Gradio call failed (baseUrl=https://demo.gradio.live, apiName=/chat)".
Proof.
  destruct (broken_history_is_stored
              (scripted demoEnv [inTime (gradioResult VNull (VArr [chatPair "q" "a"; VNull]))])
              (inbound (userSays "hi" [])) (userSays "hi" []) (freshSys activeAgent)
              (gradioResult VNull (VArr [chatPair "q" "a"; VNull])) [chatPair "q" "a"]
              (scripted_accepts _ _) eq_refl eq_refl eq_refl eq_refl)
    as (Hh & cm & Hcm & Hlog).
  split; [exact Hh|]. injection Hcm as <-. exact Hlog.
Defined.

Lemma falsy_result_extracts_nothing (result : value) :
  truthy result = false ->
  adoptedHistory result = None /\
  parseText (nullish (optProp result "data") result) = "".
Proof.
  destruct result as [ | |b|z|t| | ]; cbn [truthy]; try discriminate; intros Hf.
  - now split.
  - now split.
  - subst b. now split.
  - split; [reflexivity|]. cbn. now rewrite Hf.
  - destruct t; [now split | discriminate].
Qed.

(** X9. A falsy result ([null], [undefined], [false], [0], the empty
    string) is not an error: the exchange takes the success path, the
    placeholder is written with the empty string, and the indicator is
    cleared. *)
Theorem empty_result_publishes_empty_text (w : World) (e : Event) (m : Message) (s : Sys)
        (result : value) :
  chatBackendAccepts w ->
  message e = Some m ->
  truthy (ai_generated m) = false ->
  remoteResult w m s = Returned result ->
  truthy result = false ->
  exists cm,
    channel_sendMessage w (chatLog s) = Returned cm /\
    chatLog (snd (handleMessage w e s)) = (chatLog s ++ successCalls cm "")%list.
Proof.
  intros Hw Hm Hai Hres Hfalsy.
  destruct (falsy_result_extracts_nothing result Hfalsy) as (Hnone & Htext).
  destruct (handleMessage_published w e m s result Hw Hm Hai Hres) as (cm & Hcm & Hlog).
  exists cm. split; [exact Hcm|]. now rewrite Hlog, Hnone, Htext.
Qed.

Lemma empty_result_publishes_empty_text_witness :
  chatLog (snd (handleMessage (scripted demoEnv [inTime VNull])
                  (inbound (userSays "hi" [])) (freshSys activeAgent)))
  = successCalls placeholder "".
Proof.
  destruct (empty_result_publishes_empty_text
              (scripted demoEnv [inTime VNull])
              (inbound (userSays "hi" [])) (userSays "hi" []) (freshSys activeAgent) VNull
              (scripted_accepts _ _) eq_refl eq_refl eq_refl eq_refl)
    as (cm & Hcm & Hlog).
  injection Hcm as <-. exact Hlog.
Defined.

(** X10. A result object of an unknown shape is printed, not read: with no
    [data] and no string under [response], [text] or [output], the text
    written into the placeholder is ["[object Object]"], on the success
    path. *)
Theorem unknown_object_is_printed (w : World) (e : Event) (m : Message) (s : Sys)
        (props : list (string * value)) :
  chatBackendAccepts w ->
  message e = Some m ->
  truthy (ai_generated m) = false ->
  remoteResult w m s = Returned (VObj props) ->
  lookup "data" props = VUndef ->
  isString (lookup "response" props) = false ->
  isString (lookup "text" props) = false ->
  isString (lookup "output" props) = false ->
  exists cm,
    channel_sendMessage w (chatLog s) = Returned cm /\
    chatLog (snd (handleMessage w e s)) = (chatLog s ++ successCalls cm "[object Object]")%list.
Proof.
  intros Hw Hm Hai Hres Hdata Hr Ht Ho.
  destruct (handleMessage_published w e m s (VObj props) Hw Hm Hai Hres) as (cm & Hcm & Hlog).
  exists cm. split; [exact Hcm|]. rewrite Hlog.
  unfold adoptedHistory, stateHistory, chatbotHistory.
  cbn [optProp getProp]. rewrite Hdata. cbn [optIndex nullish].
  rewrite parseText_object. cbn [find]. now rewrite Hr, Ht, Ho, Hdata.
Qed.

Lemma unknown_object_is_printed_witness :
  chatLog (snd (handleMessage
                  (scripted demoEnv [inTime (VObj [("error", VStr "queue full"); ("code", VNum 503)])])
                  (inbound (userSays "hi" [])) (freshSys activeAgent)))
  = successCalls placeholder "[object Object]".
Proof.
  destruct (unknown_object_is_printed
              (scripted demoEnv [inTime (VObj [("error", VStr "queue full"); ("code", VNum 503)])])
              (inbound (userSays "hi" [])) (userSays "hi" []) (freshSys activeAgent)
              [("error", VStr "queue full"); ("code", VNum 503)]
              (scripted_accepts _ _) eq_refl eq_refl eq_refl eq_refl eq_refl eq_refl eq_refl)
    as (cm & Hcm & Hlog).
  injection Hcm as <-. exact Hlog.
Defined.

Lemma parseText_array (items : list value) :
  parseText (VArr items) = joinKept newline (map parseText items).
Proof. reflexivity. Qed.

Lemma parseText_falsy (v : value) : truthy v = false -> parseText v = "".
Proof.
  destruct v as [ | |b|z|t| | ]; cbn [truthy]; try discriminate; intros Hf;
    try reflexivity.
  - now subst b.
  - cbn. now rewrite Hf.
  - destruct t; [reflexivity | discriminate].
Qed.

(** Within an array, an element counts only through its own text. *)
Lemma parseText_array_element (xs zs : list value) (v : value) :
  parseText (VArr (xs ++ v :: zs)) =
  glue newline (parseText (VArr xs)) (glue newline (parseText v) (parseText (VArr zs))).
Proof.
  rewrite !parseText_array, map_app. cbn [map].
  now rewrite joinKept_app, joinKept_cons.
Qed.

(** X11. [parseText] sees through nesting: inside an array, a nested array
    reads as if its elements stood in its place, and so does an object
    that carries no string under [response], [text], [output] and holds an
    array under [data]; an element that is falsy reads as if it were not
    there. *)
Theorem parseText_sees_through_nesting (xs ys zs : list value) :
  parseText (VArr (xs ++ VArr ys :: zs)) = parseText (VArr (xs ++ ys ++ zs))
  /\
  (forall props,
     isString (lookup "response" props) = false ->
     isString (lookup "text" props) = false ->
     isString (lookup "output" props) = false ->
     lookup "data" props = VArr ys ->
     parseText (VArr (xs ++ VObj props :: zs)) = parseText (VArr (xs ++ ys ++ zs)))
  /\
  (forall v,
     truthy v = false ->
     parseText (VArr (xs ++ v :: zs)) = parseText (VArr (xs ++ zs))).
Proof.
  assert (Hinline : forall v, parseText v = parseText (VArr ys) ->
                    parseText (VArr (xs ++ v :: zs)) = parseText (VArr (xs ++ ys ++ zs))).
  { intros v Hv. rewrite parseText_array_element, Hv.
    rewrite !parseText_array, !map_app. now rewrite !joinKept_app. }
  split; [now apply Hinline|]. split.
  - intros props Hr Ht Ho Hdata. apply Hinline.
    rewrite parseText_object. cbn [find]. now rewrite Hr, Ht, Ho, Hdata.
  - intros v Hf. rewrite parseText_array_element, (parseText_falsy v Hf).
    rewrite !parseText_array, map_app. now rewrite joinKept_app.
Qed.

Lemma parseText_sees_through_nesting_witness :
  parseText (VArr [VStr "a"; VObj [("data", VArr [VStr "b"; VStr "c"])]; VStr "d"])
  = parseText (VArr [VStr "a"; VStr "b"; VStr "c"; VStr "d"]).
Proof.
  exact (proj1 (proj2 (parseText_sees_through_nesting
                         [VStr "a"] [VStr "b"; VStr "c"] [VStr "d"]))
           [("data", VArr [VStr "b"; VStr "c"])] eq_refl eq_refl eq_refl eq_refl).
Defined.

(** *** [init] and [dispose] *)

Lemma init_cases (w : World) (s : Sys) :
  init w s =
    match orElse (GRADIO_BASE_URL (env w)) None with
    | None =>
        (Threw (ErrorObject
           "GRADIO_BASE_URL is required (set it to your gradio.live share URL, e.g. https://xxxx.gradio.live)"),
         s)
    | Some base =>
        match import_gradio_client w with
        | Threw err => (Threw err, s)
        | Returned _ =>
            match Client_connect w (remoteLog s) (Some base) with
            | Threw err => (Threw err, logRemote s [connect (Some base)])
            | Returned c =>
                (chatClient_on w (chatLog s),
                 {| agent := {| lastInteractionTs := lastInteractionTs (agent s);
                                history := history (agent s);
                                gradioClient := Some c |};
                    chatLog := chatLog s ++ [on_message_new];
                    remoteLog := remoteLog s ++ [connect (Some base)] |})
            end
        end
    end.
Proof.
  unfold init.
  destruct (orElse (GRADIO_BASE_URL (env w)) None) as [base|]; [|reflexivity].
  unfold_async. cbn.
  destruct (import_gradio_client w); cbn; [|reflexivity].
  destruct (Client_connect w (remoteLog s) (Some base)); reflexivity.
Qed.

(** X12. [init] subscribes the handler only on a connected agent: the
    subscription is the last thing it does, after the connect to the
    configured base has returned the client the agent then holds; it
    returns only if it subscribed; and without a configured base (unset or
    empty) it throws before making any call. *)
Theorem init_subscribes_connected_agent (w : World) (s : Sys) :
  exists chatCalls remoteCalls,
    chatLog (snd (init w s)) = (chatLog s ++ chatCalls)%list /\
    remoteLog (snd (init w s)) = (remoteLog s ++ remoteCalls)%list /\
    history (agent (snd (init w s))) = history (agent s) /\
    (chatCalls = [] \/ chatCalls = [on_message_new]) /\
    (chatCalls = [on_message_new] ->
     exists base c,
       GRADIO_BASE_URL (env w) = Some base /\ nonEmpty base = true /\
       remoteCalls = [connect (Some base)] /\
       Client_connect w (remoteLog s) (Some base) = Returned c /\
       gradioClient (agent (snd (init w s))) = Some c) /\
    (fst (init w s) = Returned tt -> chatCalls = [on_message_new]) /\
    (GRADIO_BASE_URL (env w) = None \/ GRADIO_BASE_URL (env w) = Some "" ->
     chatCalls = [] /\ remoteCalls = [] /\ agent (snd (init w s)) = agent s /\
     exists msg, fst (init w s) = Threw (ErrorObject msg)).
Proof.
  rewrite init_cases.
  destruct (GRADIO_BASE_URL (env w)) as [[|ch base]|] eqn:Hbase.
  - change (orElse (Some "") None) with (@None string).
    exists [], []. rewrite !app_nil_r. cbn [fst snd].
    repeat split; auto; try discriminate. eauto.
  - change (orElse (Some (String ch base)) None) with (Some (String ch base)).
    destruct (import_gradio_client w) as [[]|err].
    + destruct (Client_connect w (remoteLog s) (Some (String ch base))) as [c|err] eqn:Hc.
      * exists [on_message_new], [connect (Some (String ch base))]. cbn [fst snd agent chatLog remoteLog history gradioClient].
        split; [reflexivity|]. split; [reflexivity|]. split; [reflexivity|].
        split; [now right|]. split; [|split; [reflexivity | intros [|]; discriminate]].
        intros _. exists (String ch base), c. now repeat split.
      * exists [], [connect (Some (String ch base))]. rewrite app_nil_r.
        cbn [fst snd agent chatLog remoteLog history logRemote].
        split; [reflexivity|]. split; [reflexivity|]. split; [reflexivity|].
        split; [now left|]. split; [discriminate|]. split; [discriminate|].
        intros [|]; discriminate.
    + exists [], []. rewrite !app_nil_r. cbn [fst snd].
      split; [reflexivity|]. split; [reflexivity|]. split; [reflexivity|].
      split; [now left|]. split; [discriminate|]. split; [discriminate|].
      intros [|]; discriminate.
  - change (orElse (@None string) None) with (@None string).
    exists [], []. rewrite !app_nil_r. cbn [fst snd].
    repeat split; auto; try discriminate. eauto.
Qed.

(** X13. When unsubscribing throws, [dispose] stops there: the client is
    not closed and the chat session is not disconnected. *)
Theorem dispose_stops_at_unsubscribe (w : World) (s : Sys) (err : thrown) :
  chatClient_off w (chatLog s) = Threw err ->
  dispose w s = (Threw err, logChat s [off_message_new]).
Proof.
  intros Hoff. unfold dispose. unfold_async. cbn. now rewrite Hoff.
Qed.

Lemma dispose_stops_at_unsubscribe_witness :
  dispose cannotUnsubscribe (freshSys activeAgent)
  = (Threw (ErrorObject "client disposed"),
     {| agent := activeAgent; chatLog := [off_message_new]; remoteLog := [] |}).
Proof.
  exact (dispose_stops_at_unsubscribe cannotUnsubscribe (freshSys activeAgent)
           (ErrorObject "client disposed") eq_refl).
Defined.

Lemma dispose_returned (w : World) (s : Sys) (c : GradioClient) :
  gradioClient (agent s) = Some c ->
  chatClient_off w (chatLog s) = Returned tt ->
  snd (dispose w s) =
    {| agent := agent s;
       chatLog := chatLog s ++ [off_message_new; disconnectUser];
       remoteLog := remoteLog s ++ [close c] |}.
Proof.
  intros Hc Hoff. unfold dispose. unfold_async. cbn. rewrite Hoff. cbn. rewrite Hc. cbn.
  destruct (client_close w (remoteLog s) c) as [[]|err]; cbn;
    now rewrite <- app_assoc.
Qed.

(** X14. [dispose] does not forget the client: after a first [dispose] the
    agent still holds it, and a second [dispose] unsubscribes, closes the
    same client and disconnects all over again. *)
Theorem dispose_twice_closes_twice (w : World) (s : Sys) (c : GradioClient) :
  gradioClient (agent s) = Some c ->
  chatClient_off w (chatLog s) = Returned tt ->
  chatClient_off w (chatLog s ++ [off_message_new; disconnectUser]) = Returned tt ->
  gradioClient (agent (snd (dispose w s))) = Some c /\
  remoteLog (snd (twice (dispose w) s)) = (remoteLog s ++ [close c; close c])%list /\
  chatLog (snd (twice (dispose w) s)) =
    (chatLog s ++ [off_message_new; disconnectUser; off_message_new; disconnectUser])%list.
Proof.
  intros Hc Hoff1 Hoff2. unfold twice.
  rewrite (dispose_returned w s c Hc Hoff1).
  split; [exact Hc|].
  rewrite (dispose_returned w
             {| agent := agent s;
                chatLog := chatLog s ++ [off_message_new; disconnectUser];
                remoteLog := remoteLog s ++ [close c] |} c Hc Hoff2). cbn.
  now rewrite <- !app_assoc.
Qed.

Lemma dispose_twice_closes_twice_witness :
  remoteLog (snd (twice (dispose (scripted demoEnv [])) (freshSys activeAgent)))
  = [close (ClientHandle 0); close (ClientHandle 0)].
Proof.
  exact (proj1 (proj2 (dispose_twice_closes_twice (scripted demoEnv []) (freshSys activeAgent)
                         (ClientHandle 0) eq_refl eq_refl eq_refl))).
Defined.

(* ------------------------------------------------------------------ *)
(** ** The chat input *)

Module ChatInputFacts.
Import ChatInput.

Lemma forallb_firstn {A} (f : A -> bool) (n : nat) (l : list A) :
  forallb f l = true -> forallb f (firstn n l) = true.
Proof.
  revert n. induction l as [|x l IH]; intros [|n]; cbn; auto.
  intros [Hx Hl]%andb_prop. now rewrite Hx, IH.
Qed.

Lemma forallb_filter_same {A} (f : A -> bool) (l : list A) : forallb f (filter f l) = true.
Proof.
  induction l as [|x l IH]; cbn; [reflexivity|].
  destruct (f x) eqn:E; cbn; [now rewrite E|exact IH].
Qed.

Lemma dropIndex_sublist {A} (f : A -> bool) (index i : nat) (l : list A) :
  (List.length (dropIndex index i l) <= List.length l)%nat /\
  (forallb f l = true -> forallb f (dropIndex index i l) = true).
Proof.
  revert i. induction l as [|x l IH]; intros i; cbn; [now split|].
  destruct (IH (S i)) as (Hlen & Hall).
  destruct (negb (i =? index)%nat); cbn.
  - split; [lia|]. intros [Hx Hl]%andb_prop. now rewrite Hx, Hall.
  - split; [lia|]. intros [_ Hl]%andb_prop. now apply Hall.
Qed.

Lemma dropIndex_past {A} (index i : nat) (l : list A) :
  (index < i)%nat -> dropIndex index i l = l.
Proof.
  revert i. induction l as [|x l IH]; intros i Hlt; cbn; [reflexivity|].
  assert (E : (i =? index)%nat = false) by (apply Nat.eqb_neq; lia).
  rewrite E. cbn. rewrite IH; [reflexivity | lia].
Qed.

Lemma dropIndex_split {A} (index i : nat) (l : list A) :
  (i <= index)%nat ->
  dropIndex index i l = (firstn (index - i) l ++ skipn (S (index - i)) l)%list.
Proof.
  revert i. induction l as [|x l IH]; intros i Hle; cbn -[Nat.sub].
  - now rewrite firstn_nil.
  - destruct (i =? index)%nat eqn:E; cbn -[Nat.sub].
    + apply Nat.eqb_eq in E. subst i. rewrite Nat.sub_diag. cbn.
      apply dropIndex_past. lia.
    + apply Nat.eqb_neq in E.
      replace (index - i)%nat with (S (index - S i)) by lia.
      cbn. rewrite IH; [reflexivity | lia].
Qed.

Lemma handleSubmit_files (p : Props) (st : State) :
  files (snd (handleSubmit p st)) = files st \/ files (snd (handleSubmit p st)) = [].
Proof.
  unfold handleSubmit.
  destruct (sendMessage p) as [send|]; [|now left].
  destruct (_ || _ || _); [now left|].
  destruct (onSubmit p) as [submit|].
  - destruct (submit _ _); cbn; auto.
  - destruct (send _); cbn; auto.
Qed.

Lemma step_tidy (p : Props) (ev : UiEvent) (st : State) : tidy st -> tidy (step p ev st).
Proof.
  unfold tidy. intros (Hlen & Hall).
  destruct ev as [text|targetFiles|index| |key shiftKey| ]; cbn [step files].
  - now split.
  - unfold onPickFiles.
    destruct (negb (List.length _ =? 0)%nat); cbn [files]; [|now split].
    split.
    + rewrite length_firstn. lia.
    + apply forallb_firstn. rewrite forallb_app, Hall. apply forallb_filter_same.
  - unfold removeFile. cbn [files].
    destruct (dropIndex_sublist isImageFile index 0 (files st)) as (Hl & Ha).
    split; [lia | now apply Ha].
  - destruct (handleSubmit_files p st) as [-> | ->]; [now split | split; [cbn; lia | reflexivity]].
  - unfold handleKeyDown. destruct (_ && _); [|now split].
    destruct (handleSubmit_files p st) as [-> | ->]; [now split | split; [cbn; lia | reflexivity]].
  - now split.
Qed.

End ChatInputFacts.

(** X15. Whatever the user does, in whatever order, and however the sends
    are answered, the chat input never holds more than four files, and
    every file it holds is an image. *)
Theorem input_holds_at_most_four_images (events : list (ChatInput.Props * ChatInput.UiEvent)) :
  (List.length (ChatInput.files (ChatInput.run events ChatInput.initial)) <= 4)%nat /\
  forallb ChatInput.isImageFile (ChatInput.files (ChatInput.run events ChatInput.initial)) = true.
Proof.
  assert (Hrun : forall st, ChatInput.tidy st ->
                            ChatInput.tidy (ChatInput.run events st)).
  { induction events as [|[p ev] events IH]; intros st Hst; [exact Hst|].
    cbn. apply IH. now apply ChatInputFacts.step_tidy. }
  apply (Hrun ChatInput.initial). split; [cbn; lia | reflexivity].
Qed.

(** X16. Picking files appends the picked images, in the order picked, to
    the files already held, as far as a total of four allows; files that
    are not images are left out, and the files already held stay as they
    are. *)
Theorem onPickFiles_appends_up_to_four (targetFiles : option (list ChatInput.File))
        (st : ChatInput.State) :
  (List.length (ChatInput.files st) <= 4)%nat ->
  ChatInput.files (ChatInput.onPickFiles targetFiles st) =
    (ChatInput.files st ++
     firstn (4 - List.length (ChatInput.files st))
       (filter ChatInput.isImageFile
          match targetFiles with Some l => l | None => [] end))%list.
Proof.
  intros Hlen. unfold ChatInput.onPickFiles.
  destruct (filter ChatInput.isImageFile _) as [|f picked] eqn:E; cbn [List.length Nat.eqb negb].
  - now rewrite firstn_nil, app_nil_r.
  - cbn [ChatInput.files]. rewrite firstn_app, firstn_all2 by exact Hlen. reflexivity.
Qed.

Lemma onPickFiles_appends_up_to_four_witness :
  ChatInput.files
    (ChatInput.onPickFiles
       (Some [ {| ChatInput.name := "scan.png"; ChatInput.size := 10; ChatInput.type := "image/png" |};
               {| ChatInput.name := "notes.pdf"; ChatInput.size := 20; ChatInput.type := "application/pdf" |};
               {| ChatInput.name := "xray.jpg"; ChatInput.size := 30; ChatInput.type := "image/jpeg" |} ])
       ChatInput.initial)
  = [ {| ChatInput.name := "scan.png"; ChatInput.size := 10; ChatInput.type := "image/png" |};
      {| ChatInput.name := "xray.jpg"; ChatInput.size := 30; ChatInput.type := "image/jpeg" |} ].
Proof.
  apply (onPickFiles_appends_up_to_four
           (Some [ {| ChatInput.name := "scan.png"; ChatInput.size := 10; ChatInput.type := "image/png" |};
                   {| ChatInput.name := "notes.pdf"; ChatInput.size := 20; ChatInput.type := "application/pdf" |};
                   {| ChatInput.name := "xray.jpg"; ChatInput.size := 30; ChatInput.type := "image/jpeg" |} ])
           ChatInput.initial).
  cbn. lia.
Defined.

(** X17. Removing a thumbnail removes exactly the file at that position
    and keeps the others in order; a position past the end removes
    nothing. *)
Theorem removeFile_removes_one (index : nat) (st : ChatInput.State) :
  ChatInput.files (ChatInput.removeFile index st) =
    (firstn index (ChatInput.files st) ++ skipn (S index) (ChatInput.files st))%list /\
  ((List.length (ChatInput.files st) <= index)%nat ->
   ChatInput.files (ChatInput.removeFile index st) = ChatInput.files st).
Proof.
  assert (E : ChatInput.files (ChatInput.removeFile index st) =
              (firstn index (ChatInput.files st) ++ skipn (S index) (ChatInput.files st))%list).
  { unfold ChatInput.removeFile. cbn [ChatInput.files].
    rewrite ChatInputFacts.dropIndex_split by lia. now rewrite Nat.sub_0_r. }
  split; [exact E|].
  intros Hlen. rewrite E, firstn_all2, skipn_all2 by lia. apply app_nil_r.
Qed.

Lemma submit_guard (p : ChatInput.Props) (st : ChatInput.State) :
  (negb (Js.nonEmpty (ChatInput.trim (ChatInput.value st)))
   && negb (0 <? List.length (ChatInput.files st))%nat)
  || ChatInput.isLoading st || ChatInput.isGenerating p
  = ChatInput.submitDisabled p st.
Proof.
  unfold ChatInput.submitDisabled.
  now destruct (ChatInput.files st).
Qed.

Lemma handleSubmit_cases (p : ChatInput.Props) (st : ChatInput.State)
      (send : string -> Bridge.outcome unit) :
  ChatInput.sendMessage p = Some send ->
  ChatInput.handleSubmit p st =
    if ChatInput.submitDisabled p st then ([], st)
    else
      match ChatInput.sendOutcome p st with
      | Bridge.Returned _ =>
          ([ChatInput.sendCall p st; ChatInput.onValueChange_called ""], ChatInput.initial)
      | Bridge.Threw _ =>
          ([ChatInput.sendCall p st; ChatInput.console_error],
           {| ChatInput.value := ChatInput.value st;
              ChatInput.isLoading := false;
              ChatInput.files := ChatInput.files st |})
      end.
Proof.
  intros Hsend. unfold ChatInput.handleSubmit, ChatInput.sendOutcome, ChatInput.sendCall.
  rewrite Hsend. cbv zeta. rewrite submit_guard.
  destruct (ChatInput.submitDisabled p st); [reflexivity|].
  destruct (ChatInput.onSubmit p) as [submit|]; reflexivity.
Qed.

(** X18. The form sends exactly when its submit button is enabled: with the
    button disabled (a draft that trims to nothing and no file, a send in
    progress, or the assistant generating), submitting the form or pressing
    Enter calls nothing and changes nothing; with it enabled, submitting
    makes exactly one send, with the trimmed text. *)
Theorem form_sends_iff_button_enabled (p : ChatInput.Props) (st : ChatInput.State)
        (send : string -> Bridge.outcome unit) :
  ChatInput.sendMessage p = Some send ->
  (ChatInput.submitDisabled p st = true ->
   ChatInput.handleSubmit p st = ([], st) /\
   forall key shiftKey, ChatInput.handleKeyDown key shiftKey p st = ([], st))
  /\
  (ChatInput.submitDisabled p st = false ->
   hd_error (fst (ChatInput.handleSubmit p st)) = Some (ChatInput.sendCall p st) /\
   List.length (filter (fun c => match c with
                                 | ChatInput.onSubmit_called _ _
                                 | ChatInput.sendMessage_called _ => true
                                 | _ => false
                                 end) (fst (ChatInput.handleSubmit p st))) = 1%nat /\
   ChatInput.handleKeyDown "Enter" false p st = ChatInput.handleSubmit p st /\
   ChatInput.handleKeyDown "Enter" true p st = ([], st)).
Proof.
  intros Hsend. rewrite (handleSubmit_cases p st send Hsend). split; intros Hd; rewrite Hd.
  - split; [reflexivity|]. intros key shiftKey. unfold ChatInput.handleKeyDown.
    destruct (_ && _); [|reflexivity].
    now rewrite (handleSubmit_cases p st send Hsend), Hd.
  - unfold ChatInput.handleKeyDown. cbn [String.eqb Ascii.eqb Bool.eqb andb negb].
    rewrite (handleSubmit_cases p st send Hsend), Hd.
    unfold ChatInput.sendCall.
    destruct (ChatInput.sendOutcome p st); destruct (ChatInput.onSubmit p);
      repeat split; reflexivity.
Qed.

Lemma form_sends_iff_button_enabled_witness :
  ChatInput.handleSubmit
    {| ChatInput.isGenerating := false;
       ChatInput.sendMessage := Some (fun _ => Bridge.Returned tt);
       ChatInput.onSubmit := None |}
    {| ChatInput.value := "   "; ChatInput.isLoading := false; ChatInput.files := [] |}
  = ([], {| ChatInput.value := "   "; ChatInput.isLoading := false; ChatInput.files := [] |}).
Proof.
  exact (proj1 (proj1 (form_sends_iff_button_enabled
                         {| ChatInput.isGenerating := false;
                            ChatInput.sendMessage := Some (fun _ => Bridge.Returned tt);
                            ChatInput.onSubmit := None |}
                         {| ChatInput.value := "   "; ChatInput.isLoading := false;
                            ChatInput.files := [] |}
                         (fun _ => Bridge.Returned tt) eq_refl) eq_refl)).
Defined.

(** X19. A send that fails loses nothing: the draft text and the files are
    as they were, and the form is ready again.  A send that succeeds leaves
    the input as it was at the start: empty text, no file. *)
Theorem failed_send_keeps_draft (p : ChatInput.Props) (st : ChatInput.State)
        (send : string -> Bridge.outcome unit) :
  ChatInput.sendMessage p = Some send ->
  ChatInput.submitDisabled p st = false ->
  snd (ChatInput.handleSubmit p st) =
    match ChatInput.sendOutcome p st with
    | Bridge.Returned _ => ChatInput.initial
    | Bridge.Threw _ => st
    end.
Proof.
  intros Hsend Hd. rewrite (handleSubmit_cases p st send Hsend), Hd.
  destruct (ChatInput.sendOutcome p st); [reflexivity|]. cbn [snd].
  unfold ChatInput.submitDisabled in Hd.
  apply orb_false_elim in Hd as [Hd _]. apply orb_false_elim in Hd as [_ Hload].
  destruct st as [v l f]. cbn in *. now subst l.
Qed.

Lemma failed_send_keeps_draft_witness :
  snd (ChatInput.handleSubmit
         {| ChatInput.isGenerating := false;
            ChatInput.sendMessage := Some (fun _ => Bridge.Returned tt);
            ChatInput.onSubmit := Some (fun _ _ => Bridge.Threw (Bridge.ErrorObject "offline")) |}
         {| ChatInput.value := " rash on arm "; ChatInput.isLoading := false;
            ChatInput.files := [] |})
  = {| ChatInput.value := " rash on arm "; ChatInput.isLoading := false; ChatInput.files := [] |}.
Proof.
  exact (failed_send_keeps_draft
           {| ChatInput.isGenerating := false;
              ChatInput.sendMessage := Some (fun _ => Bridge.Returned tt);
              ChatInput.onSubmit := Some (fun _ _ => Bridge.Threw (Bridge.ErrorObject "offline")) |}
           {| ChatInput.value := " rash on arm "; ChatInput.isLoading := false;
              ChatInput.files := [] |}
           (fun _ => Bridge.Returned tt) eq_refl eq_refl).
Defined.

(* ------------------------------------------------------------------ *)
(** ** From the web client to the agent *)

Module ChatInterfaceFacts.
Import Js Bridge.

Lemma resolvedUrls_cons (a : Attachment) (l : list Attachment) :
  Described.resolvedUrls (a :: l)
  = (Described.resolvedUrls [a] ++ Described.resolvedUrls l)%list.
Proof. unfold Described.resolvedUrls. cbn. now rewrite app_nil_r. Qed.

Lemma imageUrls_built (file : ChatInput.File) (res_file : option string) :
  imageUrls (map ChatInterface.asReceived
               (ChatInterface.keepBuilt [ChatInterface.attachmentOf file res_file]))
  = match res_file with
    | Some url => if nonEmpty url then [url] else []
    | None => []
    end.
Proof.
  destruct res_file as [[|ch url]|]; reflexivity.
Qed.

Lemma keepBuilt_cons (a : option ChatInterface.ImageAttachment) l :
  ChatInterface.keepBuilt (a :: l)
  = (ChatInterface.keepBuilt [a] ++ ChatInterface.keepBuilt l)%list.
Proof. unfold ChatInterface.keepBuilt. cbn. now rewrite app_nil_r. Qed.

Lemma imageUrls_app (l1 l2 : list Attachment) :
  imageUrls (l1 ++ l2) = (imageUrls l1 ++ imageUrls l2)%list.
Proof.
  rewrite !PureFacts.imageUrls_resolvedUrls. unfold Described.resolvedUrls.
  apply flat_map_app.
Qed.

(** When every upload returns, what the agent resolves from the built
    attachments is what the uploads returned. *)
Lemma uploads_resolved (ch : ChatInterface.Channel) (files : list ChatInput.File) :
  forall i attachments,
    ChatInterface.promiseAll (ChatInterface.uploads ch i files) = Some attachments ->
    imageUrls (map ChatInterface.asReceived (ChatInterface.keepBuilt attachments))
    = ChatInterface.uploadedUrls ch i files.
Proof.
  induction files as [|f files IH]; intros i attachments; cbn.
  - now intros [= <-].
  - destruct (ChatInterface.sendImage ch i f) as [res_file|err]; [|discriminate].
    destruct (ChatInterface.promiseAll (ChatInterface.uploads ch (S i) files))
      as [rest|] eqn:Erest; [|discriminate].
    intros [= <-].
    rewrite keepBuilt_cons, map_app, imageUrls_app, (IH (S i) rest Erest), imageUrls_built.
    now destruct res_file.
Qed.

Lemma find_last_match {A} (f : A -> bool) (earlier later : list A) (x : A) :
  f x = true ->
  (forall y, In y later -> f y = false) ->
  find f (rev (earlier ++ x :: later)) = Some x.
Proof.
  intros Hx Hlater. rewrite rev_app_distr. cbn. rewrite <- app_assoc. cbn.
  assert (Hrev : forall y, In y (rev later) -> f y = false)
    by (intros y Hy; apply Hlater; now apply in_rev).
  induction (rev later) as [|y l IH]; cbn; [now rewrite Hx|].
  rewrite (Hrev y (or_introl eq_refl)). apply IH. intros z Hz. apply Hrev. now right.
Qed.

Lemma find_none {A} (f : A -> bool) (l : list A) :
  (forall y, In y l -> f y = false) -> find f l = None.
Proof.
  induction l as [|y l IH]; intros H; cbn; [reflexivity|].
  rewrite (H y (or_introl eq_refl)). apply IH. intros z Hz. apply H. now right.
Qed.

End ChatInterfaceFacts.

(** X20. What is uploaded is what the model is shown: when every upload
    returns, the message sent carries one image attachment per upload that
    returned a non-empty URL, and from those attachments the agent
    resolves exactly the uploaded URLs, in the order of the files. *)
Theorem uploaded_images_reach_the_agent (ch : ChatInterface.Channel) (text : string)
        (files : list ChatInput.File) (attachments : list (option ChatInterface.ImageAttachment)) :
  ChatInterface.promiseAll (ChatInterface.uploads ch 0 files) = Some attachments ->
  nth_error (fst (ChatInterface.onSubmit (Some ch) text (Some files))) (List.length files)
    = Some (ChatInterface.sendMessage_called text
              (Some (ChatInterface.keepBuilt attachments))) /\
  Bridge.imageUrls (map ChatInterface.asReceived (ChatInterface.keepBuilt attachments))
    = ChatInterface.uploadedUrls ch 0 files.
Proof.
  intros Hall. split; [|now apply ChatInterfaceFacts.uploads_resolved].
  unfold ChatInterface.onSubmit. rewrite Hall.
  destruct (ChatInterface.sendMessage ch 0 text _); cbn [fst];
    rewrite nth_error_app2; rewrite length_map; try lia;
    now rewrite Nat.sub_diag.
Qed.

Lemma uploaded_images_reach_the_agent_witness :
  let scan := {| ChatInput.name := "scan.png"; ChatInput.size := 10;
                 ChatInput.type := "image/png" |} in
  let xray := {| ChatInput.name := "xray.jpg"; ChatInput.size := 30;
                 ChatInput.type := "image/jpeg" |} in
  let ch := {| ChatInterface.cid := "messaging:c1";
               ChatInterface.sendImage := fun i f =>
                 Bridge.Returned (Some ("https://cdn/" ++ ChatInput.name f));
               ChatInterface.sendMessage := fun _ _ _ => Bridge.Returned tt |} in
  exists attachments,
    fst (ChatInterface.onSubmit (Some ch) "what is this?" (Some [scan; xray]))
      = [ChatInterface.sendImage_called scan; ChatInterface.sendImage_called xray;
         ChatInterface.sendMessage_called "what is this?" (Some attachments)] /\
    Bridge.imageUrls (map ChatInterface.asReceived attachments)
      = ["https://cdn/scan.png"; "https://cdn/xray.jpg"].
Proof.
  cbv zeta. eexists. split; [reflexivity|].
  exact (proj2 (uploaded_images_reach_the_agent
                  {| ChatInterface.cid := "messaging:c1";
                     ChatInterface.sendImage := fun i f =>
                       Bridge.Returned (Some ("https://cdn/" ++ ChatInput.name f));
                     ChatInterface.sendMessage := fun _ _ _ => Bridge.Returned tt |}
                  "what is this?"
                  [ {| ChatInput.name := "scan.png"; ChatInput.size := 10;
                       ChatInput.type := "image/png" |};
                    {| ChatInput.name := "xray.jpg"; ChatInput.size := 30;
                       ChatInput.type := "image/jpeg" |} ]
                  _ eq_refl)).
Defined.

(** X21. [onSubmit] starts the upload of every file, in order, before it
    sends anything.  When an upload is rejected the message goes out
    without any attachment, the uploaded images included; and [onSubmit]
    itself rejects only when a send without attachments was rejected. *)
Theorem onSubmit_falls_back_to_text (ch : ChatInterface.Channel) (text : string)
        (files : list ChatInput.File) :
  (exists sends,
     fst (ChatInterface.onSubmit (Some ch) text (Some files))
       = (map ChatInterface.sendImage_called files ++ sends)%list /\
     filter ChatInterface.isUpload sends = [] /\
     last sends ChatInterface.console_error <> ChatInterface.console_error)
  /\
  (ChatInterface.promiseAll (ChatInterface.uploads ch 0 files) = None ->
   filter ChatInterface.carriesAttachments
     (fst (ChatInterface.onSubmit (Some ch) text (Some files))) = [] /\
   In (ChatInterface.sendMessage_called text None)
     (fst (ChatInterface.onSubmit (Some ch) text (Some files))))
  /\
  (forall err,
     snd (ChatInterface.onSubmit (Some ch) text (Some files)) = Bridge.Threw err ->
     exists attempt,
       ChatInterface.sendMessage ch attempt text None = Bridge.Threw err /\
       In (ChatInterface.sendMessage_called text None)
         (fst (ChatInterface.onSubmit (Some ch) text (Some files)))).
Proof.
  unfold ChatInterface.onSubmit.
  assert (Hnone : forall l, filter ChatInterface.carriesAttachments
                              (map ChatInterface.sendImage_called l) = []).
  { induction l; cbn; auto. }
  destruct (ChatInterface.promiseAll (ChatInterface.uploads ch 0 files)) as [atts|].
  - destruct (ChatInterface.sendMessage ch 0 text (Some _)) as [[]|err0]; cbn [fst snd].
    + split; [eexists; split; [reflexivity|]; split; [reflexivity | discriminate]|].
      split; [discriminate|]. intros err; discriminate.
    + split; [eexists; split; [reflexivity|]; split; [reflexivity | discriminate]|].
      split; [discriminate|]. intros err Herr. exists 1%nat. split; [exact Herr|].
      apply in_or_app. right. cbn. auto.
  - cbn [fst snd].
    split; [eexists; split; [reflexivity|]; split; [reflexivity | discriminate]|].
    split.
    + intros _. split; [now rewrite filter_app, Hnone|].
      apply in_or_app. right. cbn. auto.
    + intros err Herr. exists 0%nat. split; [exact Herr|].
      apply in_or_app. right. cbn. auto.
Qed.

(** X22. Stopping targets the latest message of the assistant: the stop
    event names the last message in the list whose author's id starts with
    ["ai-bot"]; with no such message, or no channel, no event is sent. *)
Theorem stop_targets_latest_bot_message (ch : ChatInterface.Channel)
        (messages : list ChatInterface.ChatMessage) :
  (forall earlier later m,
     messages = (earlier ++ m :: later)%list ->
     ChatInterface.fromBot m = true ->
     (forall m', In m' later -> ChatInterface.fromBot m' = false) ->
     ChatInterface.handleStopGenerating (Some ch) messages
     = [ChatInterface.ai_indicator_stop (ChatInterface.cid ch) (ChatInterface.id m)])
  /\
  ((forall m, In m messages -> ChatInterface.fromBot m = false) ->
   ChatInterface.handleStopGenerating (Some ch) messages = [])
  /\
  ChatInterface.handleStopGenerating None messages = [].
Proof.
  unfold ChatInterface.handleStopGenerating. split; [|split; [|reflexivity]].
  - intros earlier later m -> Hm Hlater.
    now rewrite (ChatInterfaceFacts.find_last_match ChatInterface.fromBot earlier later m Hm Hlater).
  - intros Hnone. rewrite ChatInterfaceFacts.find_none; [reflexivity|].
    intros y Hy. apply Hnone. now apply in_rev.
Qed.

Lemma stop_targets_latest_bot_message_witness :
  ChatInterface.handleStopGenerating
    (Some {| ChatInterface.cid := "messaging:c1";
             ChatInterface.sendImage := fun _ _ => Bridge.Returned None;
             ChatInterface.sendMessage := fun _ _ _ => Bridge.Returned tt |})
    [ {| ChatInterface.id := "m1"; ChatInterface.user_id := Some "ai-bot-c1" |};
      {| ChatInterface.id := "m2"; ChatInterface.user_id := Some "dr-lee" |};
      {| ChatInterface.id := "m3"; ChatInterface.user_id := Some "ai-bot-c1" |};
      {| ChatInterface.id := "m4"; ChatInterface.user_id := None |} ]
  = [ChatInterface.ai_indicator_stop "messaging:c1" "m3"].
Proof.
  refine (proj1 (stop_targets_latest_bot_message
                  {| ChatInterface.cid := "messaging:c1";
                     ChatInterface.sendImage := fun _ _ => Bridge.Returned None;
                     ChatInterface.sendMessage := fun _ _ _ => Bridge.Returned tt |}
                  [ {| ChatInterface.id := "m1"; ChatInterface.user_id := Some "ai-bot-c1" |};
                    {| ChatInterface.id := "m2"; ChatInterface.user_id := Some "dr-lee" |};
                    {| ChatInterface.id := "m3"; ChatInterface.user_id := Some "ai-bot-c1" |};
                    {| ChatInterface.id := "m4"; ChatInterface.user_id := None |} ])
           [ {| ChatInterface.id := "m1"; ChatInterface.user_id := Some "ai-bot-c1" |};
             {| ChatInterface.id := "m2"; ChatInterface.user_id := Some "dr-lee" |} ]
           [ {| ChatInterface.id := "m4"; ChatInterface.user_id := None |} ]
           {| ChatInterface.id := "m3"; ChatInterface.user_id := Some "ai-bot-c1" |}
           eq_refl eq_refl _).
  intros m' [<- | []]. reflexivity.
Defined.
